(** * english-bot: the vocabulary store, the answer log and the reminder
    scheduler of [bot.py], embedded in Rocq.

    The persistent state is the three tables of [init_schema]; every
    function of the DB layer is a pure function on that state.  The
    scheduler state is the list of jobs registered with the APScheduler
    instance.  Randomness ([random.randint], [random.choice], SQL
    [random()]) is read from an oracle, and the clocks are inputs: the UTC
    clock of [record_answer], and for [schedule_today] what the time zone
    answers, its [now] and its [localize].  What the database drivers
    refuse to take is told apart in [Driver].  Chat ids are Telegram's,
    integers of 64 bits at most. *)

From Stdlib Require Import ZArith Lia Ascii String List Permutation Sorted.
From stdpp Require Import base decidable option list sorting gmap strings.

Local Open Scope Z_scope.
#[local] Set Warnings "-clear-no-such-hyp".

(* ================================================================== *)
(** * Orderings, as the SQL [ORDER BY] clauses combine them            *)
(* ================================================================== *)

Module Ord.

(** A three-way comparison that is a total preorder: what one sort key of
    an [ORDER BY] provides. *)
Class TotalCmp {A : Type} (cmp : A -> A -> comparison) : Prop := {
  cmp_refl : forall x, cmp x x = Eq;
  cmp_antisym : forall x y, cmp y x = CompOpp (cmp x y);
  cmp_eq_congr : forall x y, cmp x y = Eq -> forall z, cmp x z = cmp y z;
  cmp_lt_trans : forall x y z, cmp x y = Lt -> cmp y z = Lt -> cmp x z = Lt
}.

(** [ORDER BY k1, k2]: the second key decides only among ties of the first. *)
Definition lex (c1 c2 : comparison) : comparison :=
  match c1 with Eq => c2 | _ => c1 end.

Definition lex_cmp {A} (c1 c2 : A -> A -> comparison) : A -> A -> comparison :=
  fun x y => lex (c1 x y) (c2 x y).

(** A key expression: compare rows by comparing a column of them. *)
Definition cmp_on {A B} (f : A -> B) (cmp : B -> B -> comparison)
  : A -> A -> comparison :=
  fun x y => cmp (f x) (f y).

(** [NULLS FIRST]: NULL sorts before every value. *)
Definition nulls_first {A} (cmp : A -> A -> comparison)
  (x y : option A) : comparison :=
  match x, y with
  | None, None => Eq
  | None, Some _ => Lt
  | Some _, None => Gt
  | Some a, Some b => cmp a b
  end.

(** Ascending order: [x] may stand before [y]. *)
Definition asc {A} (cmp : A -> A -> comparison) : relation A :=
  fun x y => cmp x y <> Gt.

(** Descending order ([ORDER BY ... DESC]). *)
Definition desc {A} (cmp : A -> A -> comparison) : relation A :=
  fun x y => cmp x y <> Lt.

#[export] Instance comparison_eq_dec : EqDecision comparison.
Proof. solve_decision. Defined.

#[export] Instance asc_dec {A} (cmp : A -> A -> comparison) x y :
  Decision (asc cmp x y).
Proof. unfold asc. apply _. Defined.

#[export] Instance desc_dec {A} (cmp : A -> A -> comparison) x y :
  Decision (desc cmp x y).
Proof. unfold desc. apply _. Defined.

End Ord.

(* ================================================================== *)
(** * The Python builtins the code relies on                           *)
(* ================================================================== *)

Module Py.

(** Strings are sequences of the code points 0..255. *)
Definition code (c : ascii) : Z := Z.of_N (N_of_ascii c).

(** [str.isspace] on those code points: TAB..CR, FS..US, SPACE, NEL, NBSP. *)
Definition isspace (c : ascii) : bool :=
  let n := code c in
  ((9 <=? n) && (n <=? 13)) || ((28 <=? n) && (n <=? 32))
  || (n =? 133) || (n =? 160).

Fixpoint lstrip_chars (l : list ascii) : list ascii :=
  match l with
  | [] => []
  | c :: l' => if isspace c then lstrip_chars l' else l
  end.

(** [str.strip()]: whitespace removed at both ends. *)
Definition strip (s : string) : string :=
  string_of_list_ascii
    (reverse (lstrip_chars (reverse (lstrip_chars (list_ascii_of_string s))))).

Definition isdigit (c : ascii) : bool :=
  let n := code c in (48 <=? n) && (n <=? 57).

(** The digits of an [int] literal: decimal digits, a single underscore
    allowed between two digits; [prev] tells whether the last character read
    was a digit. *)
Fixpoint int_digits (acc : Z) (prev : bool) (l : list ascii) : option Z :=
  match l with
  | [] => if prev then Some acc else None
  | c :: l' =>
      if isdigit c then int_digits (acc * 10 + (code c - 48)) true l'
      else if (code c =? 95) && prev then int_digits acc false l'
      else None
  end.

(** The whitespace [int] skips at either end of a literal: TAB..CR and
    SPACE, and, beyond ASCII, NEL and NBSP, which [int] turns into spaces
    first.  FS..US are whitespace for [str.strip] but not for [int]. *)
Definition int_isspace (c : ascii) : bool :=
  let n := code c in
  ((9 <=? n) && (n <=? 13)) || (n =? 32) || (n =? 133) || (n =? 160).

Fixpoint int_lstrip (l : list ascii) : list ascii :=
  match l with
  | [] => []
  | c :: l' => if int_isspace c then int_lstrip l' else l
  end.

Definition int_strip (l : list ascii) : list ascii :=
  reverse (int_lstrip (reverse (int_lstrip l))).

(** [int(s)] for a string: the whitespace at either end is skipped, then
    come an optional sign and the digits; [None] stands for [ValueError].
    (The limit of 4300 digits is out of reach: a message of Telegram holds
    at most 4096 characters.) *)
Definition int (s : string) : option Z :=
  match int_strip (list_ascii_of_string s) with
  | c :: l =>
      if code c =? 43 then int_digits 0 false l
      else if code c =? 45 then Z.opp <$> int_digits 0 false l
      else int_digits 0 false (c :: l)
  | [] => None
  end.

(** [random.randint(a, b)] with [a <= b]: some integer of [a..b],
    determined by the raw value [r] the generator yields. *)
Definition randint (a b r : Z) : Z := a + r mod (b - a + 1).

(** [random.choice(l)] for a non-empty [l]. *)
Definition choice (l : list Z) (r : Z) : Z :=
  nth (Z.to_nat (r mod Z.of_nat (length l))) l 0.

(** ** [datetime]

    A naive [datetime] value.  The constructor of Python's class rejects
    fields out of range, so a value carries the evidence that its fields
    are in range. *)

Definition is_leap (y : Z) : bool :=
  (y mod 4 =? 0) && (negb (y mod 100 =? 0) || (y mod 400 =? 0)).

Definition days_in_month (y m : Z) : Z :=
  if m =? 2 then (if is_leap y then 29 else 28)
  else if (m =? 4) || (m =? 6) || (m =? 9) || (m =? 11) then 30
  else 31.

Definition between (lo x hi : Z) : bool := (lo <=? x) && (x <=? hi).

Definition fields_ok (y mo d h mi s us : Z) : bool :=
  between 1 y 9999 && between 1 mo 12 && between 1 d (days_in_month y mo)
  && between 0 h 23 && between 0 mi 59 && between 0 s 59
  && between 0 us 999999.

Record datetime := mk_datetime {
  year : Z; month : Z; day : Z;
  hour : Z; minute : Z; second : Z; microsecond : Z;
  datetime_ok : fields_ok year month day hour minute second microsecond = true
}.

(** Comparison of two naive datetimes: field by field, most significant
    first. *)
Definition dt_compare (a b : datetime) : comparison :=
  Ord.lex (year a ?= year b)
  (Ord.lex (month a ?= month b)
  (Ord.lex (day a ?= day b)
  (Ord.lex (hour a ?= hour b)
  (Ord.lex (minute a ?= minute b)
  (Ord.lex (second a ?= second b)
           (microsecond a ?= microsecond b)))))).

Definition dt_le (a b : datetime) : Prop := dt_compare a b <> Gt.

Definition digit_char (d : Z) : ascii := ascii_of_N (Z.to_N (48 + d)).

(** [n] written with [k] decimal digits, zero padded ([%0kd]). *)
Fixpoint pad (k : nat) (n : Z) : string :=
  match k with
  | O => EmptyString
  | S k' => String (digit_char (n / 10 ^ Z.of_nat k'))
                   (pad k' (n mod 10 ^ Z.of_nat k'))
  end.

(** [datetime.isoformat()]: [YYYY-MM-DDTHH:MM:SS], followed by [.ffffff]
    when the microsecond field is not zero. *)
Definition iso_fraction (us : Z) : string :=
  if us =? 0 then EmptyString else String "." (pad 6 us).

Definition isoformat (d : datetime) : string :=
  (pad 4 (year d) ++ "-" ++ pad 2 (month d) ++ "-" ++ pad 2 (day d) ++ "T"
   ++ pad 2 (hour d) ++ ":" ++ pad 2 (minute d) ++ ":" ++ pad 2 (second d)
   ++ iso_fraction (microsecond d))%string.

End Py.

(* ================================================================== *)
(** * bot.py                                                           *)
(* ================================================================== *)

Module Bot.

(** ** The tables of [init_schema] *)

(** A row of [users]; the primary key [chat_id] is the key of the map that
    holds the rows. *)
Record user_row := mk_user {
  tz : string;
  start_hour : Z;
  end_hour : Z;
  daily_count : Z
}.

(** The column defaults of [users]. *)
Definition default_user : user_row :=
  {| tz := "Europe/Kyiv"; start_hour := 10; end_hour := 21; daily_count := 3 |}.

Record vocab_row := mk_vocab {
  v_id : Z;
  v_chat_id : Z;
  v_text : string;
  last_seen : option Py.datetime;
  strength : Z;
  active : Z
}.

Record answer_row := mk_answer {
  a_id : Z;
  a_chat_id : Z;
  a_vocab_id : Z;
  a_text : string;
  answered_at : Py.datetime
}.

(** The database: the three tables and the two id sequences
    ([AUTOINCREMENT] / [SERIAL]) of [vocab] and [answers].  SQL integers are
    taken unbounded. *)
Record db := mk_db {
  users : gmap Z user_row;
  vocab : list vocab_row;
  answers : list answer_row;
  vocab_seq : Z;
  answers_seq : Z
}.

Definition empty_db : db :=
  {| users := ∅; vocab := []; answers := []; vocab_seq := 0; answers_seq := 0 |}.

Definition with_users (f : gmap Z user_row -> gmap Z user_row) (s : db) : db :=
  {| users := f (users s); vocab := vocab s; answers := answers s;
     vocab_seq := vocab_seq s; answers_seq := answers_seq s |}.

Definition with_vocab (f : list vocab_row -> list vocab_row) (s : db) : db :=
  {| users := users s; vocab := f (vocab s); answers := answers s;
     vocab_seq := vocab_seq s; answers_seq := answers_seq s |}.

(** ** The DB layer *)

(** [get_user]: the row of [chat_id], inserted with the column defaults
    when it is missing (the recursive call of the source then finds it). *)
Definition get_user (chat_id : Z) (s : db) : user_row * db :=
  match users s !! chat_id with
  | Some u => (u, s)
  | None => (default_user, with_users (insert chat_id default_user) s)
  end.

(** One [column = value] of the keyword arguments of [set_user]. *)
Inductive field :=
| F_daily_count (v : Z)
| F_start_hour (v : Z)
| F_end_hour (v : Z)
| F_tz (v : string).

Definition assign (u : user_row) (f : field) : user_row :=
  match f with
  | F_daily_count v =>
      {| tz := tz u; start_hour := start_hour u; end_hour := end_hour u;
         daily_count := v |}
  | F_start_hour v =>
      {| tz := tz u; start_hour := v; end_hour := end_hour u;
         daily_count := daily_count u |}
  | F_end_hour v =>
      {| tz := tz u; start_hour := start_hour u; end_hour := v;
         daily_count := daily_count u |}
  | F_tz v =>
      {| tz := v; start_hour := start_hour u; end_hour := end_hour u;
         daily_count := daily_count u |}
  end.

(** [set_user]: what [UPDATE users SET ... WHERE chat_id = ?] writes once
    the driver has taken its parameters ([Driver.set_user] tells when it
    does); nothing at all without fields. *)
Definition set_user (chat_id : Z) (fields : list field) (s : db) : db :=
  match fields with
  | [] => s
  | _ => with_users (alter (fun u => fold_left assign fields u) chat_id) s
  end.

(** [add_vocab]: [text] may be [None]; the insert leaves [last_seen],
    [strength] and [active] to their column defaults. *)
Definition add_vocab (chat_id : Z) (text : option string) (s : db) : db :=
  let text := Py.strip (default EmptyString text) in
  if decide (text = EmptyString) then s
  else
    {| users := users s;
       vocab := vocab s ++
         [ {| v_id := vocab_seq s + 1; v_chat_id := chat_id; v_text := text;
              last_seen := None; strength := 0; active := 1 |} ];
       answers := answers s;
       vocab_seq := vocab_seq s + 1;
       answers_seq := answers_seq s |}.

(** [WHERE chat_id = ? AND active = 1] *)
Definition active_of (chat_id : Z) (r : vocab_row) : Prop :=
  v_chat_id r = chat_id /\ active r = 1.

#[export] Instance active_of_dec chat_id r : Decision (active_of chat_id r).
Proof. unfold active_of. apply _. Defined.

(** [list_vocab]: [... ORDER BY id LIMIT ?].  The four selected columns are
    read off the rows returned. *)
Definition list_vocab (chat_id : Z) (limit : nat) (s : db) : list vocab_row :=
  take limit
    (merge_sort (Ord.asc (Ord.cmp_on v_id Z.compare))
       (filter (active_of chat_id) (vocab s))).

Definition deactivate (r : vocab_row) : vocab_row :=
  {| v_id := v_id r; v_chat_id := v_chat_id r; v_text := v_text r;
     last_seen := last_seen r; strength := strength r; active := 0 |}.

(** [remove_vocab]: what [UPDATE vocab SET active=0 WHERE chat_id=? AND
    id=?] writes once the driver has taken its parameters
    ([Driver.remove_vocab] tells when it does). *)
Definition remove_vocab (chat_id vid : Z) (s : db) : db :=
  with_vocab
    (fmap (fun r =>
       if decide (v_chat_id r = chat_id /\ v_id r = vid) then deactivate r
       else r))
    s.

(** The first sort key of [pick_vocab] on PostgreSQL:
    [last_seen NULLS FIRST]. *)
Definition pg_seen_key : vocab_row -> vocab_row -> comparison :=
  Ord.cmp_on last_seen (Ord.nulls_first Py.dt_compare).

(** The first sort key of [pick_vocab] on SQLite, where [last_seen] is the
    ISO text: [COALESCE(last_seen,'0000')], compared as text. *)
Definition coalesce_seen (r : vocab_row) : string :=
  default "0000"%string (Py.isoformat <$> last_seen r).

Definition sqlite_seen_key : vocab_row -> vocab_row -> comparison :=
  Ord.cmp_on coalesce_seen String.compare.

(** [ORDER BY <last_seen key>, strength ASC, random()], on rows paired
    with the value [random()] took for them. *)
Definition pick_order (is_pg : bool) : vocab_row * Z -> vocab_row * Z -> comparison :=
  Ord.lex_cmp
    (Ord.cmp_on fst (if is_pg then pg_seen_key else sqlite_seen_key))
    (Ord.lex_cmp (Ord.cmp_on (strength ∘ fst) Z.compare)
                 (Ord.cmp_on snd Z.compare)).

(** [pick_vocab]: the first row of the ordered selection ([LIMIT 1],
    [fetchone]), or [None].  [rnd i] is the value of [random()] for the
    [i]-th selected row. *)
Definition pick_vocab (is_pg : bool) (rnd : nat -> Z) (chat_id : Z) (s : db)
  : option vocab_row :=
  fst <$>
    head (merge_sort (Ord.asc (pick_order is_pg))
            (imap (fun i r => (r, rnd i))
               (filter (active_of chat_id) (vocab s)))).

(** The first write of [record_answer]: [INSERT INTO answers ...]. *)
Definition insert_answer (chat_id vocab_id : Z) (text : string)
  (now : Py.datetime) (s : db) : db :=
  {| users := users s;
     vocab := vocab s;
     answers := answers s ++
       [ {| a_id := answers_seq s + 1; a_chat_id := chat_id;
            a_vocab_id := vocab_id; a_text := text; answered_at := now |} ];
     vocab_seq := vocab_seq s;
     answers_seq := answers_seq s + 1 |}.

Definition reinforce (now : Py.datetime) (r : vocab_row) : vocab_row :=
  {| v_id := v_id r; v_chat_id := v_chat_id r; v_text := v_text r;
     last_seen := Some now; strength := strength r + 1; active := active r |}.

(** The second write:
    [UPDATE vocab SET last_seen=?, strength=strength+1 WHERE id=?]. *)
Definition touch_vocab (vocab_id : Z) (now : Py.datetime) (s : db) : db :=
  with_vocab
    (fmap (fun r => if decide (v_id r = vocab_id) then reinforce now r else r))
    s.

(** [record_answer]; [now] is the value of [datetime.utcnow()]. *)
Definition record_answer (chat_id vocab_id : Z) (text : string)
  (now : Py.datetime) (s : db) : db :=
  touch_vocab vocab_id now (insert_answer chat_id vocab_id text now s).

(** The query of [export_cmd]:
    [SELECT answered_at, text FROM answers WHERE chat_id=?
     ORDER BY answered_at DESC]; on SQLite [answered_at] is the ISO text. *)
Definition answered_key (is_pg : bool) : answer_row -> answer_row -> comparison :=
  if is_pg then Ord.cmp_on answered_at Py.dt_compare
  else Ord.cmp_on (Py.isoformat ∘ answered_at) String.compare.

Definition export_rows (is_pg : bool) (chat_id : Z) (s : db)
  : list (Py.datetime * string) :=
  (fun a => (answered_at a, a_text a)) <$>
    merge_sort (Ord.desc (answered_key is_pg))
      (filter (fun a => a_chat_id a = chat_id) (answers s)).

(** The writes of the DB layer, as the handlers issue them one after the
    other on the shared database.  A trace lists the calls that were
    carried out: a call that the driver refuses (see [Driver]) raises
    before anything is written, and is no step of a trace. *)
Inductive op :=
| Op_get_user (chat_id : Z)
| Op_set_user (chat_id : Z) (fields : list field)
| Op_add_vocab (chat_id : Z) (text : option string)
| Op_remove_vocab (chat_id vid : Z)
| Op_record_answer (chat_id vocab_id : Z) (text : string) (now : Py.datetime).

Definition exec (s : db) (o : op) : db :=
  match o with
  | Op_get_user c => snd (get_user c s)
  | Op_set_user c fs => set_user c fs s
  | Op_add_vocab c t => add_vocab c t s
  | Op_remove_vocab c v => remove_vocab c v s
  | Op_record_answer c v t now => record_answer c v t now s
  end.

Definition run (ops : list op) (s : db) : db := fold_left exec ops s.

(** ** The scheduler *)

(** Time is counted in microseconds.  A naive datetime is a count on the
    calendar and clock of some zone. *)
Definition US_MINUTE : Z := 60000000.
Definition US_HOUR : Z := 60 * US_MINUTE.
Definition US_DAY : Z := 24 * US_HOUR.

(** [now.date()], as a day number. *)
Definition date_of (t : Z) : Z := t / US_DAY.

(** [time(hour, minute)]: [None] stands for the [ValueError] of a field out
    of range. *)
Definition time (hour minute : Z) : option Z :=
  if Py.between 0 hour 23 && Py.between 0 minute 59
  then Some (hour * US_HOUR + minute * US_MINUTE) else None.

(** [datetime.combine(date, t)], a naive datetime. *)
Definition combine (date t : Z) : Z := date * US_DAY + t.

Definition hour_of (t : Z) : Z := (t mod US_DAY) / US_HOUR.
Definition minute_of (t : Z) : Z := (t mod US_HOUR) / US_MINUTE.

(** An aware datetime, as pytz builds it: what the calendar and clock of its
    zone show ([wall]), and the instant it denotes, a count on the time
    line of UTC.  Aware datetimes are compared, and hashed, by their
    instant: two of them with different clock readings are equal when the
    offsets of the zone make up for the difference. *)
Record aware := mk_aware {
  wall : Z;
  instant : Z
}.

(** What a zone of pytz answers during one call of [schedule_today]:
    [datetime.now(tz)], and the instant of [tz.localize(naive)] for a naive
    datetime ([is_dst] is left at [False], so that [localize] raises
    nothing, also for a clock reading that the zone skips or shows
    twice). *)
Record reading := mk_reading {
  rd_now : aware;
  rd_localize : Z -> Z
}.

(** [tz.localize(naive)] *)
Definition localize (rd : reading) (naive : Z) : aware :=
  mk_aware naive (rd_localize rd naive).

Inductive exn := ValueError | UnknownTimeZoneError | OverflowError | DataError.

(** How a call ends: it returns, it raises, or the fuel given to its loop
    ran out before the loop did. *)
Inductive outcome (A : Type) :=
| Returned (a : A)
| Raised (e : exn)
| OutOfFuel.
Arguments Returned {A} a.
Arguments Raised {A} e.
Arguments OutOfFuel {A}.

(** [max(1, min(12, count))] *)
Definition target (count : Z) : Z := Z.max 1 (Z.min 12 count).

Definition MINUTES : list Z := [5; 15; 25; 35; 45].

(** The candidate drawn by the iteration that reads [rng i] and
    [rng (S i)]. *)
Definition draw_hour (rng : nat -> Z) (i : nat) (start_h end_h : Z) : Z :=
  Py.randint start_h (Z.max start_h (end_h - 1)) (rng i).

Definition draw_minute (rng : nat -> Z) (i : nat) : Z :=
  Py.choice MINUTES (rng (S i)).

(** The set [planned]: one element for each instant, held as the map from
    the instant to the clock reading of the element.  [planned.add(t)]
    leaves the set as it is when it holds an element equal to [t]. *)
Definition set_add (t : aware) (planned : gmap Z Z) : gmap Z Z :=
  match planned !! instant t with
  | Some _ => planned
  | None => <[instant t := wall t]> planned
  end.

(** The [while] loop of [schedule_today]; [i] counts the values read from
    the generator so far. *)
Fixpoint plan_loop (fuel : nat) (rng : nat -> Z) (i : nat)
  (start_h end_h count : Z) (rd : reading) (planned : gmap Z Z)
  : outcome (gmap Z Z) :=
  if bool_decide (Z.of_nat (size planned) < target count) then
    match fuel with
    | O => OutOfFuel
    | S fuel' =>
        let hour := draw_hour rng i start_h end_h in
        let minute := draw_minute rng i in
        match time hour minute with
        | None => Raised ValueError
        | Some t =>
            let run_at := localize rd (combine (date_of (wall (rd_now rd))) t) in
            plan_loop fuel' rng (S (S i)) start_h end_h count rd
              (if bool_decide (instant (rd_now rd) < instant run_at)
               then set_add run_at planned else planned)
        end
    end
  else Returned planned.

(** A job of the scheduler: [send_prompt] with [args=[app, chat_id]],
    triggered at [run_date], an aware datetime of the zone [run_tz]. *)
Record job := mk_job {
  run_tz : string;
  run_date : aware;
  job_chat_id : Z
}.

Inductive message :=
| Welcome
| Updated (count start_h end_h : Z) (tz_name : string)
| Usage (current : user_row).

(** What the handlers act on: the database, the jobs registered with the
    scheduler, and the messages sent so far, each with its chat. *)
Record world := mk_world {
  w_db : db;
  w_jobs : list job;
  w_sent : list (Z * message)
}.

Definition set_db (s : db) (w : world) : world :=
  {| w_db := s; w_jobs := w_jobs w; w_sent := w_sent w |}.

Definition add_jobs (js : list job) (w : world) : world :=
  {| w_db := w_db w; w_jobs := w_jobs w ++ js; w_sent := w_sent w |}.

Definition reply_text (chat_id : Z) (m : message) (w : world) : world :=
  {| w_db := w_db w; w_jobs := w_jobs w; w_sent := w_sent w ++ [(chat_id, m)] |}.

(** The order of aware datetimes, on the entries of [planned]. *)
Definition entry_le (p q : Z * Z) : Prop := p.1 <= q.1.

#[export] Instance entry_le_dec (p q : Z * Z) : Decision (entry_le p q) :=
  Z_le_dec p.1 q.1.

(** [sorted(planned)] *)
Definition sorted (planned : gmap Z Z) : list aware :=
  (fun p => mk_aware p.2 p.1) <$> merge_sort entry_le (map_to_list planned).

(** [schedule_today].  [tznow name] is what the zone [pytz.timezone(name)]
    answers during the call, [None] when pytz does not know the name. *)
Definition schedule_today (fuel : nat) (tznow : string -> option reading)
  (rng : nat -> Z) (chat_id : Z) (w : world) : outcome unit * world :=
  let '(u, s) := get_user chat_id (w_db w) in
  let w := set_db s w in
  match tznow (tz u) with
  | None => (Raised UnknownTimeZoneError, w)
  | Some rd =>
      match plan_loop fuel rng 0 (start_hour u) (end_hour u) (daily_count u)
              rd ∅ with
      | Returned planned =>
          (Returned tt,
           add_jobs ((fun t => mk_job (tz u) t chat_id) <$> sorted planned) w)
      | Raised e => (Raised e, w)
      | OutOfFuel => (OutOfFuel, w)
      end
  end.

(** ** The handlers *)

Definition start (fuel : nat) (tznow : string -> option reading)
  (rng : nat -> Z) (chat_id : Z) (w : world) : outcome unit * world :=
  let w := set_db (snd (get_user chat_id (w_db w))) w in
  schedule_today fuel tznow rng chat_id (reply_text chat_id Welcome w).

End Bot.

(* ================================================================== *)
(** * The database drivers                                             *)
(* ================================================================== *)

Module Driver.
Import Bot.

Definition int64 (v : Z) : bool := (- 2 ^ 63 <=? v) && (v <? 2 ^ 63).
Definition int32 (v : Z) : bool := (- 2 ^ 31 <=? v) && (v <? 2 ^ 31).

(** The integers a driver takes as a parameter of a statement: sqlite3
    binds a signed 64-bit integer and raises [OverflowError] for any other,
    before the statement runs; psycopg2 writes every integer into the
    statement. *)
Definition binds (is_pg : bool) (v : Z) : bool := is_pg || int64 v.

(** The integers a column of [users] other than the key takes: [INT] on
    PostgreSQL holds 32 bits, and the statement that assigns more fails
    and is rolled back; [INTEGER] on SQLite holds what was bound. *)
Definition column_takes (is_pg : bool) (v : Z) : bool :=
  if is_pg then int32 v else true.

Definition field_ok (is_pg : bool) (f : field) : bool :=
  match f with
  | F_daily_count v | F_start_hour v | F_end_hour v =>
      binds is_pg v && column_takes is_pg v
  | F_tz _ => true
  end.

(** What is raised for an integer that is not taken. *)
Definition db_error (is_pg : bool) : exn :=
  if is_pg then DataError else OverflowError.

(** [set_user] through the driver: [Raised] leaves the database as it
    was. *)
Definition set_user (is_pg : bool) (chat_id : Z) (fields : list field)
  (s : db) : outcome db :=
  match fields with
  | [] => Returned s
  | _ =>
      if forallb (field_ok is_pg) fields && binds is_pg chat_id
      then Returned (Bot.set_user chat_id fields s)
      else Raised (db_error is_pg)
  end.

(** [remove_vocab] through the driver: the comparisons of the [WHERE]
    clause take every integer that was bound. *)
Definition remove_vocab (is_pg : bool) (chat_id vid : Z) (s : db)
  : outcome db :=
  if binds is_pg chat_id && binds is_pg vid
  then Returned (Bot.remove_vocab chat_id vid s)
  else Raised (db_error is_pg).

End Driver.

(* ================================================================== *)
(** * The vocabulary of the specification                              *)
(* ================================================================== *)

Module Spec.
Import Bot.

(** The composite order of [pick], as the specification words it: a row
    never seen stands before every row with a [last_seen]; rows with a
    [last_seen] stand by ascending [last_seen]; within one recency class
    the weaker row stands first. *)
Definition sorts_before (r r' : vocab_row) : Prop :=
  match last_seen r, last_seen r' with
  | None, None => strength r <= strength r'
  | None, Some _ => True
  | Some _, None => False
  | Some a, Some b =>
      Py.dt_compare a b = Lt \/
      (Py.dt_compare a b = Eq /\ strength r <= strength r')
  end.

(** Two rows that the first two keys do not tell apart. *)
Definition tied (r r' : vocab_row) : Prop :=
  match last_seen r, last_seen r' with
  | None, None => strength r = strength r'
  | Some a, Some b => Py.dt_compare a b = Eq /\ strength r = strength r'
  | _, _ => False
  end.

(** The clock readings of the answers a trace records, in order. *)
Definition stamps (ops : list op) : list Py.datetime :=
  omap (fun o => match o with
                 | Op_record_answer _ _ _ now => Some now
                 | _ => None
                 end) ops.

(** What a trace records for one chat: timestamp and text of each reply,
    in the order of the calls. *)
Definition recorded (chat_id : Z) (ops : list op) : list (Py.datetime * string) :=
  omap (fun o => match o with
                 | Op_record_answer c _ text now =>
                     if decide (c = chat_id) then Some (now, text) else None
                 | _ => None
                 end) ops.

(** Reverse-chronological order of exported rows. *)
Definition newest_first (x y : Py.datetime * string) : Prop :=
  Py.dt_le y.1 x.1.

(** The answers of one chat, timestamp and text, in table order. *)
Definition log_of (chat_id : Z) (s : db) : list (Py.datetime * string) :=
  (fun a => (answered_at a, a_text a)) <$>
    filter (fun a => a_chat_id a = chat_id) (answers s).

(** The aware datetime the loop of [schedule_today] computes in the
    iteration that reads [rng i] and [rng (S i)], when the drawn hour is a
    valid one. *)
Definition run_at (rng : nat -> Z) (start_h end_h : Z) (rd : reading)
  (i : nat) : aware :=
  localize rd
    (combine (date_of (wall (rd_now rd)))
       (draw_hour rng i start_h end_h * US_HOUR + draw_minute rng i * US_MINUTE)).

(** Whether an aware datetime is later than the [now] of the call. *)
Definition later (rd : reading) (t : aware) : Prop :=
  instant (rd_now rd) < instant t.

#[export] Instance later_dec (rd : reading) (t : aware) : Decision (later rd t) :=
  Z_lt_dec (instant (rd_now rd)) (instant t).

(** The instants later than [now] among the candidates of the first [k]
    draws made from position [i] of the generator on. *)
Fixpoint future (rng : nat -> Z) (start_h end_h : Z) (rd : reading)
  (k i : nat) : gset Z :=
  match k with
  | O => ∅
  | S k' =>
      (if bool_decide (later rd (run_at rng start_h end_h rd i))
       then {[ instant (run_at rng start_h end_h rd i) ]} else ∅)
      ∪ future rng start_h end_h rd k' (S (S i))
  end.

(** What the specification asks of a planned timestamp: it is later than
    the planning instant, and it is what the zone makes of a clock reading
    of today with its hour in the window and its minute among the five. *)
Definition in_window (start_h end_h : Z) (rd : reading) (t : aware) : Prop :=
  later rd t /\
  t = localize rd (wall t) /\
  date_of (wall t) = date_of (wall (rd_now rd)) /\
  start_h <= hour_of (wall t) <= Z.max start_h (end_h - 1) /\
  minute_of (wall t) ∈ MINUTES.

End Spec.

(* ================================================================== *)
(** * The scenarios of the specification                               *)
(* ================================================================== *)

Module Scenario.
Import Bot.

(** A zone that stays [offset] ahead of UTC all day, its clock reading
    [t]. *)
Definition fixed_offset (offset t : Z) : reading :=
  {| rd_now := mk_aware t (t - offset);
     rd_localize := fun naive => naive - offset |}.

(** The clock of every zone reads [h]:[m] on day 0, a day on which the
    zone stays two hours ahead of UTC. *)
Definition at_time (h m : Z) : string -> option reading :=
  fun _ => Some (fixed_offset (2 * US_HOUR) (h * US_HOUR + m * US_MINUTE)).

(** The offset of Europe/Kyiv on the day its clocks go from 03:00 to
    04:00: two hours before, three hours after; [localize] reads the
    hour that is skipped with the offset of before. *)
Definition kyiv_offset (naive : Z) : Z :=
  if naive <? 4 * US_HOUR then 2 * US_HOUR else 3 * US_HOUR.

(** Kyiv on such a day (day 0), its clock reading [t]. *)
Definition kyiv (t : Z) : reading :=
  {| rd_now := mk_aware t (t - kyiv_offset t);
     rd_localize := fun naive => naive - kyiv_offset naive |}.

(** The clock of every zone reads [h]:[m] on such a day. *)
Definition spring_forward (h m : Z) : string -> option reading :=
  fun _ => Some (kyiv (h * US_HOUR + m * US_MINUTE)).

(** Chat 1 with the given settings, nothing else stored, no job registered,
    no message sent. *)
Definition chat1 (start_h end_h count : Z) : world :=
  {| w_db := with_users
       (insert 1 {| tz := "Europe/Kyiv"; start_hour := start_h;
                    end_hour := end_h; daily_count := count |}) empty_db;
     w_jobs := [];
     w_sent := [] |}.

(** A generator that yields 0, 7, 14, ... *)
Definition sevens (i : nat) : Z := Z.of_nat i * 7.

Definition noon : Py.datetime := Py.mk_datetime 2024 5 1 12 0 0 0 eq_refl.
Definition evening : Py.datetime := Py.mk_datetime 2024 5 1 19 30 15 250 eq_refl.

End Scenario.

(* ================================================================== *)
(** * The command handlers                                             *)
(* ================================================================== *)

Module Handlers.
Import Bot.

(** [str.isdigit] on the code points 0..255: the ASCII digits and the
    superscripts two, three and one (178, 179, 185); false on the empty
    string. *)
Definition isdigit_char (c : ascii) : bool :=
  let n := Py.code c in
  ((48 <=? n) && (n <=? 57)) || (n =? 178) || (n =? 179) || (n =? 185).

Definition str_isdigit (s : string) : bool :=
  match list_ascii_of_string s with
  | [] => false
  | l => forallb isdigit_char l
  end.

(** [" ".join(args)] *)
Fixpoint join (args : list string) : string :=
  match args with
  | [] => EmptyString
  | [a] => a
  | a :: rest => String.append a (String " " (join rest))
  end.

(** What these handlers answer with. *)
Inductive reply :=
| AddUsage
| Added (txt : string)
| RemoveUsage
| Removed
| Recorded.

(** [add_cmd]; [args] is [ctx.args]. *)
Definition add_cmd (chat_id : Z) (args : list string) (s : db)
  : list reply * db :=
  let txt := Py.strip (join args) in
  if decide (txt = EmptyString) then ([AddUsage], s)
  else ([Added txt], add_vocab chat_id (Some txt) s).

(** [remove_cmd]: the guard is [isdigit], the conversion is [int]; what
    [int] or the driver raises is not caught, and no answer is sent. *)
Definition remove_cmd (is_pg : bool) (chat_id : Z) (args : list string)
  (s : db) : outcome (list reply) * db :=
  match args with
  | [] => (Returned [RemoveUsage], s)
  | a0 :: _ =>
      if str_isdigit a0 then
        match Py.int a0 with
        | Some vid =>
            match Driver.remove_vocab is_pg chat_id vid s with
            | Returned s' => (Returned [Removed], s')
            | Raised e => (Raised e, s)
            | OutOfFuel => (OutOfFuel, s)
            end
        | None => (Raised ValueError, s)
        end
      else (Returned [RemoveUsage], s)
  end.

(** [reply_handler]: [is_reply] tells whether the message has a
    [reply_to_message], [text] is its text, [now] the reading of the UTC
    clock in [record_answer], [rnd] the values of [random()] in
    [pick_vocab]. *)
Definition reply_handler (is_pg : bool) (rnd : nat -> Z) (now : Py.datetime)
  (chat_id : Z) (is_reply : bool) (text : string) (s : db)
  : list reply * db :=
  if is_reply then
    match pick_vocab is_pg rnd chat_id s with
    | None => ([], s)
    | Some v => ([Recorded], record_answer chat_id (v_id v) text now s)
    end
  else ([], s).

(** [settings_cmd]; [args] is [ctx.args].  The [try] block covers the three
    conversions, the update, the acknowledgement and the call of
    [schedule_today]; whatever is raised there is swallowed, and the usage
    text follows, with the settings read at the start. *)
Definition settings_cmd (is_pg : bool) (fuel : nat)
  (tznow : string -> option reading) (rng : nat -> Z) (chat_id : Z)
  (args : list string) (w : world) : outcome unit * world :=
  let '(u, s) := get_user chat_id (w_db w) in
  let w := set_db s w in
  let usage := reply_text chat_id (Usage u) in
  match args with
  | a0 :: a1 :: a2 :: rest =>
      match Py.int a0, Py.int a1, Py.int a2 with
      | Some count, Some start_h, Some end_h =>
          let tz_name := match rest with a3 :: _ => a3 | [] => tz u end in
          match Driver.set_user is_pg chat_id
                  [F_daily_count count; F_start_hour start_h;
                   F_end_hour end_h; F_tz tz_name] (w_db w) with
          | Returned s' =>
              let w := reply_text chat_id (Updated count start_h end_h tz_name)
                         (set_db s' w) in
              match schedule_today fuel tznow rng chat_id w with
              | (Returned _, w') => (Returned tt, w')
              | (Raised _, w') => (Returned tt, usage w')
              | (OutOfFuel, w') => (OutOfFuel, w')
              end
          | Raised _ => (Returned tt, usage w)
          | OutOfFuel => (OutOfFuel, w)
          end
      | _, _, _ => (Returned tt, usage w)
      end
  | _ => (Returned tt, usage w)
  end.

End Handlers.

(* ================================================================== *)
(** * The candidate times of a day                                     *)
(* ================================================================== *)

Module Plan.
Import Bot.

(** Every clock reading the loop of [schedule_today] can draw on the day
    [date]: an hour of [start_h .. max(start_h, end_h - 1)] and a minute of
    [MINUTES]. *)
Definition day_slots (start_h end_h date : Z) : list Z :=
  h ← seqZ start_h (Z.max start_h (end_h - 1) - start_h + 1);
  m ← MINUTES;
  [combine date (h * US_HOUR + m * US_MINUTE)].

(** Those of them that the zone places later than [now]. *)
Definition to_come (start_h end_h : Z) (rd : reading) : list Z :=
  filter (fun t => instant (rd_now rd) < rd_localize rd t)
    (day_slots start_h end_h (date_of (wall (rd_now rd)))).

(** The instants that are still to come. *)
Definition remaining (start_h end_h : Z) (rd : reading) : gset Z :=
  list_to_set (rd_localize rd <$> to_come start_h end_h rd).

(** A generator whose draws walk through the clock readings of [l], one
    per iteration of the loop. *)
Definition walk (start_h : Z) (l : list Z) (i : nat) : Z :=
  match l !! Nat.div2 i with
  | Some t => if Nat.even i then hour_of t - start_h
              else (minute_of t - 5) / 10
  | None => 0
  end.

(** The ids of a table are issued in increasing order, from 1 up to the
    value of its sequence. *)
Definition ids_issued (ids : list Z) (seq_value : Z) : Prop :=
  0 <= seq_value /\ StronglySorted Z.lt ids /\
  Forall (fun i => 1 <= i <= seq_value) ids.

(** The rows of one id and one chat are all inactive. *)
Definition gone (chat_id vid : Z) (s : db) : Prop :=
  forall r, r ∈ vocab s -> v_chat_id r = chat_id -> v_id r = vid -> active r = 0.

End Plan.

Import Bot Spec.

(* ================================================================== *)
(** * Facts about orderings                                            *)
(* ================================================================== *)

Section OrdFacts.
Import Ord.

Lemma lex_eq_r c : lex c Eq = c.
Proof. by destruct c. Qed.

Lemma lex_not_gt c1 c2 :
  lex c1 c2 <> Gt <-> c1 = Lt \/ (c1 = Eq /\ c2 <> Gt).
Proof. destruct c1; simpl; intuition congruence. Qed.

Lemma lex_not_lt c1 c2 :
  lex c1 c2 <> Lt <-> c1 = Gt \/ (c1 = Eq /\ c2 <> Lt).
Proof. destruct c1; simpl; intuition congruence. Qed.

#[export] Instance Z_compare_total : TotalCmp Z.compare.
Proof.
  split.
  - apply Z.compare_refl.
  - intros x y. apply Z.compare_antisym.
  - intros x y H z. apply Z.compare_eq in H. by subst.
  - intros x y z. rewrite !Z.compare_lt_iff. lia.
Qed.

#[export] Instance cmp_on_total {A B} (f : A -> B) cmp :
  TotalCmp cmp -> TotalCmp (cmp_on f cmp).
Proof.
  intros H. unfold cmp_on. split.
  - intros x. apply cmp_refl.
  - intros x y. apply cmp_antisym.
  - intros x y E z. by apply cmp_eq_congr.
  - intros x y z. apply cmp_lt_trans.
Qed.

#[export] Instance lex_cmp_total {A} (c1 c2 : A -> A -> comparison) :
  TotalCmp c1 -> TotalCmp c2 -> TotalCmp (lex_cmp c1 c2).
Proof.
  intros H1 H2. unfold lex_cmp. split.
  - intros x. by rewrite !cmp_refl.
  - intros x y. rewrite (cmp_antisym (cmp := c1) x y),
      (cmp_antisym (cmp := c2) x y).
    by destruct (c1 x y), (c2 x y).
  - intros x y E z.
    destruct (c1 x y) eqn:E1; simpl in E; try discriminate.
    by rewrite (cmp_eq_congr x y E1 z), (cmp_eq_congr x y E z).
  - intros x y z Hxy Hyz.
    destruct (c1 x y) eqn:E1; simpl in Hxy; try discriminate.
    + rewrite (cmp_eq_congr x y E1 z).
      destruct (c1 y z) eqn:E2; simpl in *; try done.
      eapply cmp_lt_trans; eauto.
    + destruct (c1 y z) eqn:E2; simpl in Hyz; try discriminate.
      * assert (c1 z y = Eq) as E3
          by (rewrite (cmp_antisym (cmp := c1) y z), E2; done).
        assert (c1 x z = Lt) as ->; [|done].
        rewrite (cmp_antisym (cmp := c1) z x), (cmp_eq_congr z y E3 x),
          (cmp_antisym (cmp := c1) x y), E1. done.
      * by rewrite (cmp_lt_trans x y z E1 E2).
Qed.

#[export] Instance nulls_first_total {A} (cmp : A -> A -> comparison) :
  TotalCmp cmp -> TotalCmp (nulls_first cmp).
Proof.
  intros H. split.
  - intros [x|]; simpl; [apply cmp_refl | done].
  - intros [x|] [y|]; simpl; try done. apply cmp_antisym.
  - intros [x|] [y|] E [z|]; simpl in *; try done. by apply cmp_eq_congr.
  - intros [x|] [y|] [z|]; simpl; try done. apply cmp_lt_trans.
Qed.

Section Asc.
Context {A : Type} (cmp : A -> A -> comparison) `{!TotalCmp cmp}.

Lemma cmp_gt_lt x y : cmp x y = Gt <-> cmp y x = Lt.
Proof. rewrite (cmp_antisym (cmp := cmp) x y). destruct (cmp x y); simpl; intuition congruence. Qed.

#[export] Instance asc_total : Total (asc cmp).
Proof.
  intros x y. unfold asc. rewrite (cmp_antisym (cmp := cmp) x y).
  destruct (cmp x y); simpl; intuition congruence.
Qed.

#[export] Instance asc_trans : Transitive (asc cmp).
Proof.
  intros x y z Hxy Hyz. unfold asc in *.
  destruct (cmp x y) eqn:E1; try done.
  - by rewrite (cmp_eq_congr (cmp := cmp) x y E1 z).
  - destruct (cmp y z) eqn:E2; try done.
    + assert (cmp z y = Eq) as E3 by (rewrite (cmp_antisym (cmp := cmp) y z), E2; done).
      rewrite (cmp_antisym (cmp := cmp) z x), (cmp_eq_congr (cmp := cmp) z y E3 x),
        (cmp_antisym (cmp := cmp) x y), E1. done.
    + by rewrite (cmp_lt_trans (cmp := cmp) x y z E1 E2).
Qed.

Lemma desc_asc x y : desc cmp x y <-> asc cmp y x.
Proof.
  unfold desc, asc. rewrite (cmp_antisym (cmp := cmp) x y).
  destruct (cmp x y); simpl; intuition congruence.
Qed.

#[export] Instance desc_total : Total (desc cmp).
Proof. intros x y. rewrite !desc_asc. apply asc_total. Qed.

#[export] Instance desc_trans : Transitive (desc cmp).
Proof.
  intros x y z. rewrite !desc_asc. intros ??. by etrans.
Qed.
End Asc.

(** The head of a sorted selection is a row of the selection that may
    stand before every other one. *)
Lemma head_merge_sort {A} (R : relation A) `{!forall x y, Decision (R x y)}
  `{!Total R, !Transitive R} (l : list A) (x : A) :
  head (merge_sort R l) = Some x ->
  x ∈ l /\ forall y, y ∈ l -> R x y.
Proof.
  intros Hh.
  pose proof (StronglySorted_merge_sort R l) as Hs.
  pose proof (merge_sort_Permutation R l) as Hp.
  destruct (merge_sort R l) as [|x' l'] eqn:E; simplify_eq/=.
  split.
  - rewrite <- Hp. left.
  - intros y Hy. rewrite <- Hp in Hy.
    apply StronglySorted_inv in Hs as [_ Hall].
    apply elem_of_cons in Hy as [->|Hy].
    + destruct (total R x x); done.
    + rewrite Forall_forall in Hall. by apply Hall.
Qed.

Lemma head_merge_sort_None {A} (R : relation A)
  `{!forall x y, Decision (R x y)} (l : list A) :
  head (merge_sort R l) = None <-> l = [].
Proof.
  pose proof (merge_sort_Permutation R l) as Hp. split.
  - intros Hh. destruct (merge_sort R l) eqn:E; [|done].
    by apply Permutation_nil in Hp.
  - intros ->. done.
Qed.
End OrdFacts.

(* ================================================================== *)
(** * Facts about strings and ISO timestamps                           *)
(* ================================================================== *)

Section PyFacts.
Import Ord.
#[local] Arguments String.append : simpl nomatch.

Lemma string_compare_refl (s : string) : String.compare s s = Eq.
Proof.
  induction s as [|c s IH]; simpl; [done|].
  unfold Ascii.compare. by rewrite N.compare_refl.
Qed.

Lemma string_compare_lt_trans (x y z : string) :
  String.compare x y = Lt -> String.compare y z = Lt ->
  String.compare x z = Lt.
Proof.
  revert y z. induction x as [|a x IH]; intros [|b y] [|c z]; simpl; try done.
  unfold Ascii.compare.
  destruct (N.compare_spec (N_of_ascii a) (N_of_ascii b)) as [E1|L1|G1];
    try done;
    destruct (N.compare_spec (N_of_ascii b) (N_of_ascii c)) as [E2|L2|G2];
    try done; intros H1 H2.
  - rewrite E1, E2, N.compare_refl. eauto.
  - rewrite E1. by apply N.compare_lt_iff in L2 as ->.
  - rewrite <- E2. by apply N.compare_lt_iff in L1 as ->.
  - assert (N_of_ascii a < N_of_ascii c)%N as L by lia.
    by apply N.compare_lt_iff in L as ->.
Qed.

#[export] Instance string_compare_total : TotalCmp String.compare.
Proof.
  split.
  - apply string_compare_refl.
  - intros x y. apply String.compare_antisym.
  - intros x y E z. apply String.compare_eq_iff in E. by subst.
  - apply string_compare_lt_trans.
Qed.

#[export] Instance dt_compare_total : TotalCmp Py.dt_compare.
Proof.
  exact (_ : TotalCmp
    (lex_cmp (cmp_on Py.year Z.compare)
    (lex_cmp (cmp_on Py.month Z.compare)
    (lex_cmp (cmp_on Py.day Z.compare)
    (lex_cmp (cmp_on Py.hour Z.compare)
    (lex_cmp (cmp_on Py.minute Z.compare)
    (lex_cmp (cmp_on Py.second Z.compare)
             (cmp_on Py.microsecond Z.compare)))))))).
Qed.

Lemma append_empty_r (s : string) : (s ++ "")%string = s.
Proof. induction s; simpl; congruence. Qed.

Lemma digit_char_compare (a b : Z) :
  0 <= a <= 9 -> 0 <= b <= 9 ->
  Ascii.compare (Py.digit_char a) (Py.digit_char b) = (a ?= b).
Proof.
  intros Ha Hb. unfold Ascii.compare, Py.digit_char.
  rewrite !N_ascii_embedding by lia.
  rewrite Z2N.inj_compare by lia. apply Z.add_compare_mono_l.
Qed.

(** Zero-padded numbers of one width compare as text the way they compare
    as numbers, whatever follows them. *)
Lemma pad_compare (k : nat) : forall (n m : Z) (s t : string),
  0 <= n < 10 ^ Z.of_nat k -> 0 <= m < 10 ^ Z.of_nat k ->
  String.compare (Py.pad k n ++ s) (Py.pad k m ++ t)
  = lex (n ?= m) (String.compare s t).
Proof.
  induction k as [|k IH]; intros n m s t Hn Hm.
  - simpl in *. assert (n = 0) as -> by lia. assert (m = 0) as -> by lia.
    done.
  - rewrite Nat2Z.inj_succ, Z.pow_succ_r in Hn, Hm by lia.
    set (P := 10 ^ Z.of_nat k) in *.
    assert (0 < P) as HP by (apply Z.pow_pos_nonneg; lia).
    pose proof (Z.div_mod n P ltac:(lia)) as En.
    pose proof (Z.div_mod m P ltac:(lia)) as Em.
    pose proof (Z.mod_pos_bound n P HP) as Bn.
    pose proof (Z.mod_pos_bound m P HP) as Bm.
    assert (0 <= n / P <= 9) as Qn
      by (split; [apply Z.div_pos; lia | apply Z.lt_succ_r, Z.div_lt_upper_bound; lia]).
    assert (0 <= m / P <= 9) as Qm
      by (split; [apply Z.div_pos; lia | apply Z.lt_succ_r, Z.div_lt_upper_bound; lia]).
    cbn [Py.pad String.append String.compare]. fold P.
    rewrite digit_char_compare by done.
    rewrite IH by done.
    destruct (Z.compare_spec (n / P) (m / P)) as [E|L|G]; simpl.
    + assert ((n ?= m) = (n mod P ?= m mod P)) as ->; [|done].
      rewrite En at 1. rewrite Em at 1. rewrite E.
      apply Z.add_compare_mono_l.
    + assert (n < m) as L' by nia.
      by apply Z.compare_lt_iff in L' as ->.
    + assert (m < n) as L' by nia.
      by apply Z.compare_gt_iff in L' as ->.
Qed.

Lemma datetime_bounds (d : Py.datetime) :
  1 <= Py.year d <= 9999 /\ 1 <= Py.month d <= 12 /\ 1 <= Py.day d <= 31 /\
  0 <= Py.hour d <= 23 /\ 0 <= Py.minute d <= 59 /\
  0 <= Py.second d <= 59 /\ 0 <= Py.microsecond d <= 999999.
Proof.
  pose proof (Py.datetime_ok d) as H. unfold Py.fields_ok, Py.between in H.
  repeat (apply andb_prop in H as [H ?]).
  assert (Py.days_in_month (Py.year d) (Py.month d) <= 31)
    by (unfold Py.days_in_month; repeat case_match; lia).
  lia.
Qed.

Lemma iso_fraction_compare (a b : Z) :
  0 <= a <= 999999 -> 0 <= b <= 999999 ->
  String.compare (Py.iso_fraction a) (Py.iso_fraction b) = (a ?= b).
Proof.
  intros Ha Hb. unfold Py.iso_fraction.
  destruct (Z.eqb_spec a 0) as [->|Na], (Z.eqb_spec b 0) as [->|Nb];
    cbn [String.compare].
  - done.
  - symmetry. apply Z.compare_lt_iff. lia.
  - symmetry. apply Z.compare_gt_iff. lia.
  - change (Ascii.compare "." ".") with Eq. cbv iota.
    rewrite <- (append_empty_r (Py.pad 6 a)), <- (append_empty_r (Py.pad 6 b)).
    rewrite (pad_compare 6) by (change (10 ^ Z.of_nat 6) with 1000000; lia).
    apply lex_eq_r.
Qed.

(** The ISO texts of two datetimes compare as text the way the datetimes
    compare in time. *)
Lemma isoformat_compare (a b : Py.datetime) :
  String.compare (Py.isoformat a) (Py.isoformat b) = Py.dt_compare a b.
Proof.
  pose proof (datetime_bounds a) as Ba. pose proof (datetime_bounds b) as Bb.
  unfold Py.isoformat, Py.dt_compare.
  rewrite (pad_compare 4) by (change (10 ^ Z.of_nat 4) with 10000; lia).
  f_equal. cbn [String.append String.compare]. change (Ascii.compare "-" "-") with Eq. cbv iota.
  rewrite (pad_compare 2) by (change (10 ^ Z.of_nat 2) with 100; lia).
  f_equal. cbn [String.append String.compare]. change (Ascii.compare "-" "-") with Eq. cbv iota.
  rewrite (pad_compare 2) by (change (10 ^ Z.of_nat 2) with 100; lia).
  f_equal. cbn [String.append String.compare]. change (Ascii.compare "T" "T") with Eq. cbv iota.
  rewrite (pad_compare 2) by (change (10 ^ Z.of_nat 2) with 100; lia).
  f_equal. cbn [String.append String.compare]. change (Ascii.compare ":" ":") with Eq. cbv iota.
  rewrite (pad_compare 2) by (change (10 ^ Z.of_nat 2) with 100; lia).
  f_equal. cbn [String.append String.compare]. change (Ascii.compare ":" ":") with Eq. cbv iota.
  rewrite (pad_compare 2) by (change (10 ^ Z.of_nat 2) with 100; lia).
  f_equal. apply iso_fraction_compare; lia.
Qed.

(** The sentinel of [COALESCE(last_seen,'0000')] sorts before the ISO text
    of every datetime: years start at 1. *)
Lemma sentinel_before_iso (d : Py.datetime) :
  String.compare "0000" (Py.isoformat d) = Lt.
Proof.
  pose proof (datetime_bounds d) as Bd.
  unfold Py.isoformat.
  change "0000"%string with (Py.pad 4 0 ++ "")%string.
  rewrite (pad_compare 4) by (change (10 ^ Z.of_nat 4) with 10000; lia).
  assert (0 < Py.year d) as L by lia.
  by apply Z.compare_lt_iff in L as ->.
Qed.

(** On the rows of the table the two backends order [last_seen] alike. *)
Lemma sqlite_seen_key_pg (r1 r2 : vocab_row) :
  sqlite_seen_key r1 r2 = pg_seen_key r1 r2.
Proof.
  unfold sqlite_seen_key, pg_seen_key, cmp_on, coalesce_seen.
  destruct (last_seen r1) as [a|], (last_seen r2) as [b|];
    cbn [fmap option_fmap option_map default from_option id nulls_first].
  - apply isoformat_compare.
  - by rewrite String.compare_antisym, sentinel_before_iso.
  - apply sentinel_before_iso.
  - done.
Qed.

Lemma pick_order_pg (is_pg : bool) x y :
  pick_order is_pg x y = pick_order true x y.
Proof.
  destruct is_pg; [done|].
  unfold pick_order, lex_cmp, cmp_on. by rewrite sqlite_seen_key_pg.
Qed.

Lemma answered_key_pg (is_pg : bool) x y :
  answered_key is_pg x y = Py.dt_compare (answered_at x) (answered_at y).
Proof.
  destruct is_pg; [done|]. unfold answered_key, cmp_on. simpl.
  apply isoformat_compare.
Qed.

#[export] Instance pick_order_total is_pg : TotalCmp (pick_order is_pg).
Proof. destruct is_pg; unfold pick_order, pg_seen_key, sqlite_seen_key; apply _. Qed.

#[export] Instance answered_key_total is_pg : TotalCmp (answered_key is_pg).
Proof. destruct is_pg; unfold answered_key; apply _. Qed.
End PyFacts.

(* ================================================================== *)
(** * The vocabulary store                                             *)
(* ================================================================== *)

Section PickVocab.
Import Ord.

Lemma pick_order_true_not_gt r x r' x' :
  pick_order true (r, x) (r', x') <> Gt ->
  sorts_before r r' /\ (tied r r' -> x <= x').
Proof.
  unfold pick_order, pg_seen_key, lex_cmp, cmp_on, sorts_before, tied,
    nulls_first, compose. simpl.
  intros H.
  destruct (last_seen r) as [a|], (last_seen r') as [b|]; simpl in H;
    try done.
  - destruct (Py.dt_compare a b) eqn:E; simpl in H; try done.
    + destruct (Z.compare_spec (strength r) (strength r')) as [E'|L|G];
        simpl in H; try done.
      * split; [right; split; [done|lia]|]. intros _.
        by apply Z.compare_le_iff.
      * split; [right; split; [done|lia]|]. intros [_ ?]. lia.
    + split; [by left|]. by intros [? _].
  - destruct (Z.compare_spec (strength r) (strength r')) as [E'|L|G];
      simpl in H; try done.
    + split; [lia|]. intros _. by apply Z.compare_le_iff.
    + split; [lia|]. intros ?. lia.
Qed.

(** C3. [pick_vocab] returns, on PostgreSQL and on SQLite alike, an active
    row of the chat that stands first under the composite order
    (never-seen rows first, then ascending [last_seen], then ascending
    [strength]), and among the rows tied with it on both keys the one
    whose [random()] value is least; it returns nothing exactly when the
    chat has no active row. *)
Theorem pick_vocab_first (is_pg : bool) (rnd : nat -> Z) (chat_id : Z) (s : db) :
  let selected := filter (active_of chat_id) (vocab s) in
  (pick_vocab is_pg rnd chat_id s = None <->
     forall r, r ∈ vocab s -> ~ active_of chat_id r) /\
  (forall r, pick_vocab is_pg rnd chat_id s = Some r ->
     r ∈ vocab s /\ active_of chat_id r /\
     exists i, selected !! i = Some r /\
       forall j r', selected !! j = Some r' ->
         sorts_before r r' /\ (tied r r' -> rnd i <= rnd j)).
Proof.
  intros selected. unfold pick_vocab. fold selected. split.
  - rewrite fmap_None, head_merge_sort_None.
    split.
    + intros E r Hr Ha.
      assert (r ∈ selected) as Hs by (by apply list_elem_of_filter).
      apply list_elem_of_lookup in Hs as [i Hi].
      apply (elem_of_lookup_imap_2 (fun i r => (r, rnd i))) in Hi.
      rewrite E in Hi. by apply elem_of_nil in Hi.
    + intros Hn. destruct selected as [|r l] eqn:E; [done|].
      assert (r ∈ selected) as Hs by (rewrite E; left).
      apply list_elem_of_filter in Hs as [Ha Hr]. by destruct (Hn r).
  - intros r Hp. apply fmap_Some in Hp as ([r0 x] & Hh & ->). simpl.
    apply head_merge_sort in Hh as [Hin Hmin]; [|apply _..].
    apply elem_of_lookup_imap in Hin as (i & r1 & E & Hi). simplify_eq.
    assert (r1 ∈ selected) as Hs by (by eapply list_elem_of_lookup_2).
    apply list_elem_of_filter in Hs as [Ha Hr].
    split_and!; try done.
    exists i. split; [done|]. intros j r' Hj.
    apply pick_order_true_not_gt. rewrite <- (pick_order_pg is_pg).
    apply Hmin. by apply (elem_of_lookup_imap_2 (fun i r => (r, rnd i))).
Qed.
End PickVocab.

Section VocabStore.
Import Ord.

Lemma list_vocab_elem c limit s r :
  r ∈ list_vocab c limit s -> r ∈ vocab s /\ active_of c r.
Proof.
  unfold list_vocab. intros H.
  apply elem_of_take in H as (i & H & _).
  apply list_elem_of_lookup_2 in H.
  rewrite merge_sort_Permutation in H.
  apply list_elem_of_filter in H. tauto.
Qed.

Lemma remove_vocab_noop c vid s :
  (forall r, r ∈ vocab s -> v_chat_id r = c -> v_id r = vid -> active r = 0) ->
  remove_vocab c vid s = s.
Proof.
  intros H. unfold remove_vocab, with_vocab. destruct s as [u v a vs as_].
  simpl in *. f_equal.
  induction v as [|r v IH]; [done|]. rewrite fmap_cons. f_equal.
  - case_decide as Hd; [|done]. destruct Hd as [Hc Hi].
    destruct r as [i c' t l st ac]. unfold deactivate. simpl in *.
    f_equal. symmetry. apply (H (mk_vocab i c' t l st ac)); [left|done..].
  - apply IH. intros r' Hr'. apply H. by right.
Qed.

(** What [remove_vocab] writes: no row of the chat with the id is active
    afterwards, so that [list_vocab] shows none; a second run changes
    nothing; and for an id the chat has no row of nothing changes. *)
Lemma remove_vocab_effect (chat_id vid : Z) (s : db) :
  (forall limit r,
     r ∈ list_vocab chat_id limit (remove_vocab chat_id vid s) ->
     v_id r <> vid) /\
  remove_vocab chat_id vid (remove_vocab chat_id vid s)
    = remove_vocab chat_id vid s /\
  ((forall r, r ∈ vocab s -> ~ (v_chat_id r = chat_id /\ v_id r = vid)) ->
   remove_vocab chat_id vid s = s).
Proof.
  assert (forall r, r ∈ vocab (remove_vocab chat_id vid s) ->
            v_chat_id r = chat_id -> v_id r = vid -> active r = 0) as Hoff.
  { intros r Hr Hc Hi. unfold remove_vocab, with_vocab in Hr. simpl in Hr.
    apply list_elem_of_fmap in Hr as (r0 & -> & _).
    case_decide as Hd; [done|]. simpl in *. tauto. }
  split_and!.
  - intros limit r Hr Hi. apply list_vocab_elem in Hr as [Hr [Hc Ha]].
    specialize (Hoff r Hr Hc Hi). lia.
  - by apply remove_vocab_noop.
  - intros Hn. apply remove_vocab_noop. intros r Hr Hc Hi.
    destruct (Hn r Hr). done.
Qed.

(** C7, as the code has it.  For the ids of a chat and of an item that the
    driver takes as parameters (on SQLite the signed 64-bit integers, on
    PostgreSQL all), [remove_vocab] raises nothing; once it has run,
    [list_vocab] of the same chat shows no row with the removed id;
    running it a second time raises nothing and changes nothing; and for
    an id the chat has no row of it changes nothing. *)
Theorem remove_vocab_idempotent (is_pg : bool) (chat_id vid : Z) (s : db) :
  Driver.binds is_pg chat_id = true ->
  Driver.binds is_pg vid = true ->
  exists s',
    Driver.remove_vocab is_pg chat_id vid s = Returned s' /\
    (forall limit r, r ∈ list_vocab chat_id limit s' -> v_id r <> vid) /\
    Driver.remove_vocab is_pg chat_id vid s' = Returned s' /\
    ((forall r, r ∈ vocab s -> ~ (v_chat_id r = chat_id /\ v_id r = vid)) ->
     s' = s).
Proof.
  intros Hc Hv. exists (remove_vocab chat_id vid s).
  destruct (remove_vocab_effect chat_id vid s) as (Hlist & Hagain & Hnone).
  unfold Driver.remove_vocab. rewrite Hc, Hv. simpl.
  split_and!; [done|done|by rewrite Hagain|done].
Qed.

(** Chat 7 removes its item 1, on SQLite. *)
Lemma remove_vocab_idempotent_witness :
  let s := add_vocab 7 (Some "tea"%string) empty_db in
  exists s',
    Driver.remove_vocab false 7 1 s = Returned s' /\
    (forall limit r, r ∈ list_vocab 7 limit s' -> v_id r <> 1) /\
    Driver.remove_vocab false 7 1 s' = Returned s' /\
    ((forall r, r ∈ vocab s -> ~ (v_chat_id r = 7 /\ v_id r = 1)) -> s' = s).
Proof.
  intros s. apply (remove_vocab_idempotent false 7 1 s); reflexivity.
Defined.

(** The claim of C7 fails as it stands: on SQLite, [remove_vocab] with the
    id [2^63] raises [OverflowError]. *)
Lemma remove_vocab_overflow :
  let s := add_vocab 7 (Some "tea"%string) empty_db in
  Driver.remove_vocab false 7 (2 ^ 63) s = Raised OverflowError.
Proof. reflexivity. Qed.

Lemma lstrip_chars_head l c l' :
  Py.lstrip_chars l = c :: l' -> Py.isspace c = false.
Proof.
  induction l as [|a l IH]; simpl; [done|].
  destruct (Py.isspace a) eqn:E; [done|]. by intros [= -> _].
Qed.

Lemma lstrip_chars_suffix l :
  exists p, l = p ++ Py.lstrip_chars l /\ Forall (fun c => Py.isspace c = true) p.
Proof.
  induction l as [|a l (p & IH & Hp)]; simpl.
  - by exists [].
  - destruct (Py.isspace a) eqn:E.
    + exists (a :: p). split; [by rewrite <- app_comm_cons, <- IH|by constructor].
    + by exists [].
Qed.

(** What [strip] returns is the text between a run of whitespace at each
    end, and neither starts nor ends with whitespace. *)
Lemma strip_spec (s : string) :
  exists p q,
    list_ascii_of_string s = p ++ list_ascii_of_string (Py.strip s) ++ q /\
    Forall (fun c => Py.isspace c = true) p /\
    Forall (fun c => Py.isspace c = true) q /\
    (forall c, head (list_ascii_of_string (Py.strip s)) = Some c ->
               Py.isspace c = false) /\
    (forall c, last (list_ascii_of_string (Py.strip s)) = Some c ->
               Py.isspace c = false).
Proof.
  unfold Py.strip. rewrite list_ascii_of_string_of_list_ascii.
  set (l := list_ascii_of_string s).
  destruct (lstrip_chars_suffix l) as (p & El & Hp).
  set (m := Py.lstrip_chars l) in *.
  destruct (lstrip_chars_suffix (reverse m)) as (q & Em & Hq).
  set (k := Py.lstrip_chars (reverse m)) in *.
  assert (m = reverse k ++ reverse q) as Em'.
  { rewrite <- (reverse_involutive m), Em. by rewrite reverse_app. }
  exists p, (reverse q). split_and!.
  - by rewrite <- Em'.
  - done.
  - rewrite Forall_forall in *. intros c Hc. apply Hq.
    by rewrite elem_of_reverse in Hc.
  - intros c Hc. destruct (reverse k) as [|c' k'] eqn:Ek; simplify_eq/=.
    by eapply lstrip_chars_head.
  - intros c Hc. rewrite last_reverse in Hc.
    destruct k as [|c' k'] eqn:Ek; simplify_eq/=.
    by eapply lstrip_chars_head.
Qed.

(** C8. [add_vocab] works on the trimmed text: the input without the run of
    whitespace at its start and the one at its end.  When that is empty
    the database is left as it was; otherwise exactly one row is appended
    to [vocab]: active, with the trimmed text, [strength] 0 and no
    [last_seen], under a fresh id; the other tables are untouched. *)
Theorem add_vocab_trimmed (chat_id : Z) (text : option string) (s : db) :
  let input := default EmptyString text in
  let t := Py.strip input in
  let s' := add_vocab chat_id text s in
  (exists p q,
     list_ascii_of_string input = p ++ list_ascii_of_string t ++ q /\
     Forall (fun c => Py.isspace c = true) p /\
     Forall (fun c => Py.isspace c = true) q) /\
  (forall c, head (list_ascii_of_string t) = Some c -> Py.isspace c = false) /\
  (forall c, last (list_ascii_of_string t) = Some c -> Py.isspace c = false) /\
  if decide (t = EmptyString) then s' = s
  else
    (exists row,
       vocab s' = vocab s ++ [row] /\
       v_id row = vocab_seq s + 1 /\ v_chat_id row = chat_id /\
       v_text row = t /\ strength row = 0 /\ last_seen row = None /\
       active row = 1) /\
    users s' = users s /\ answers s' = answers s.
Proof.
  intros input t s'. subst s'. unfold add_vocab. fold input. fold t.
  destruct (strip_spec input) as (p & q & Hcut & Hp & Hq & Hhead & Hlast).
  fold t in Hcut, Hhead, Hlast.
  split_and!; [by exists p, q|done|done|].
  destruct (decide (t = EmptyString)) as [E|N]; [done|].
  simpl. split_and!; try done.
  eexists. split; [done|]. done.
Qed.

(** [add("  tea ")] for chat 1 stores "tea". *)
Lemma add_vocab_trimmed_witness :
  vocab (add_vocab 1 (Some "  tea ") empty_db)
  = [mk_vocab 1 1 "tea" None 0 1].
Proof.
  destruct (add_vocab_trimmed 1 (Some "  tea ") empty_db) as (_ & _ & _ & H).
  rewrite decide_False in H by (by vm_compute).
  destruct H as ((row & Hrow & Hid & Hchat & Htext & Hst & Hseen & Hact) & _).
  rewrite Hrow. destruct row; simpl in *. by subst.
Defined.
End VocabStore.

(* ================================================================== *)
(** * The answer log                                                   *)
(* ================================================================== *)

Section AnswerLog.
Import Ord.

#[local] Instance dt_le_trans : Transitive Py.dt_le := asc_trans Py.dt_compare.
#[local] Instance dt_le_total : Total Py.dt_le := asc_total Py.dt_compare.

Lemma dt_le_refl d : Py.dt_le d d.
Proof. destruct (total Py.dt_le d d); done. Qed.

(** One write of the DB layer keeps every row of [vocab] in its place,
    with the id it had; it never lowers a [strength]; and a [last_seen]
    changes only to the stamp of an answer being recorded. *)
Lemma exec_vocab_lookup (o : op) (s : db) (i : nat) (r : vocab_row) :
  vocab s !! i = Some r ->
  exists r', vocab (exec s o) !! i = Some r' /\
    v_id r' = v_id r /\ strength r <= strength r' /\
    (last_seen r' = last_seen r \/
     exists c v t now, o = Op_record_answer c v t now /\ last_seen r' = Some now).
Proof.
  intros Hi. destruct o as [c|c fs|c t|c v|c v t now]; simpl.
  - exists r. unfold get_user. destruct (users s !! c); simpl; split_and!; auto; lia.
  - exists r. unfold set_user. destruct fs; simpl; split_and!; auto; lia.
  - exists r. unfold add_vocab. case_decide; simpl; split_and!; auto; try lia.
    by apply lookup_app_l_Some.
  - unfold remove_vocab, with_vocab. simpl. rewrite list_lookup_fmap, Hi. simpl.
    eexists. split; [done|]. case_decide; simpl; split_and!; auto; lia.
  - unfold record_answer, touch_vocab, with_vocab. simpl.
    rewrite list_lookup_fmap, Hi. simpl.
    eexists. split; [done|]. case_decide; simpl; split_and!; auto; try lia.
    right. by exists c, v, t, now.
Qed.

Lemma run_strength_mono (ops : list op) : forall (s : db) (i : nat) (r : vocab_row),
  vocab s !! i = Some r ->
  exists r', vocab (run ops s) !! i = Some r' /\
    v_id r' = v_id r /\ strength r <= strength r'.
Proof.
  induction ops as [|o ops IH]; intros s i r Hi; simpl.
  - exists r. split_and!; auto; lia.
  - destruct (exec_vocab_lookup o s i r Hi) as (r1 & H1 & Hid & Hst & _).
    destruct (IH _ _ _ H1) as (r' & H' & Hid' & Hst').
    exists r'. split_and!; [done|congruence|lia].
Qed.

Lemma stamps_cons o ops : stamps (o :: ops) = stamps [o] ++ stamps ops.
Proof. unfold stamps. simpl. by destruct o. Qed.

(** Every [last_seen] in the table is the stamp of a recorded answer, if
    that held before the trace ran. *)
Lemma run_last_seen_stamp (P : Py.datetime -> Prop) (ops : list op) :
  forall s : db,
  (forall r d, r ∈ vocab s -> last_seen r = Some d -> P d) ->
  (forall d, d ∈ stamps ops -> P d) ->
  forall r d, r ∈ vocab (run ops s) -> last_seen r = Some d -> P d.
Proof.
  induction ops as [|o ops IH]; intros s Hs Hops; simpl; [done|].
  rewrite stamps_cons in Hops.
  apply IH; [|intros d Hd; apply Hops, elem_of_app; by right].
  intros r d Hr Hd. destruct o as [c|c fs|c t|c v|c v t now]; simpl in Hr.
  - unfold get_user in Hr. destruct (users s !! c); simpl in Hr; eauto.
  - unfold set_user in Hr. destruct fs; simpl in Hr; eauto.
  - unfold add_vocab in Hr. case_decide; simpl in Hr; eauto.
    apply elem_of_app in Hr as [Hr|Hr]; eauto.
    apply list_elem_of_singleton in Hr. by subst r.
  - unfold remove_vocab, with_vocab in Hr. simpl in Hr.
    apply list_elem_of_fmap in Hr as (r0 & -> & Hr0).
    case_decide; simpl in Hd; eauto.
  - unfold record_answer, touch_vocab, with_vocab in Hr. simpl in Hr.
    apply list_elem_of_fmap in Hr as (r0 & -> & Hr0).
    case_decide; simpl in Hd; eauto.
    simplify_eq. apply Hops, elem_of_app. left. simpl. left.
Qed.

Lemma run_last_seen_mono (ops : list op) :
  forall (s : db) (i : nat) (r : vocab_row) (d : Py.datetime),
  StronglySorted Py.dt_le (stamps ops) ->
  (forall n, n ∈ stamps ops -> Py.dt_le d n) ->
  vocab s !! i = Some r -> last_seen r = Some d ->
  exists r' d', vocab (run ops s) !! i = Some r' /\
    last_seen r' = Some d' /\ Py.dt_le d d'.
Proof.
  induction ops as [|o ops IH]; intros s i r d Hsort Hle Hi Hd; simpl.
  - exists r, d. split_and!; auto using dt_le_refl.
  - rewrite stamps_cons in Hsort, Hle.
    apply StronglySorted_app in Hsort as (Hcross & _ & Hsort).
    destruct (exec_vocab_lookup o s i r Hi) as (r1 & H1 & _ & _ & Hseen).
    destruct Hseen as [Hseen|(c & v & t & now & -> & Hseen)].
    + destruct (IH (exec s o) i r1 d Hsort) as (r' & d' & ? & ? & ?);
        [|done|congruence|by exists r', d'].
      intros n Hn. apply Hle, elem_of_app. by right.
    + assert (Py.dt_le d now) as Hnow
        by (apply Hle, elem_of_app; left; simpl; left).
      destruct (IH (exec s (Op_record_answer c v t now)) i r1 now Hsort)
        as (r' & d' & ? & ? & ?); [|done|done|].
      * intros n Hn. apply Hcross; [simpl; left|done].
      * exists r', d'. split_and!; [done..|]. by etrans.
Qed.

(** C4, as the code has it.  [record_answer] appends exactly one row to
    [answers], stamped with the clock reading [now], and on the row of
    [vocab] with the referenced id sets [last_seen] to that reading and
    adds exactly 1 to [strength], leaving everything else as it was.  Hence
    along every trace of writes, from every state, no [strength] ever
    decreases; and a [last_seen] once set only moves forward along every
    trace whose clock readings are non-decreasing and not earlier than
    the [last_seen] values already stored, in particular along every
    trace from the empty database whose clock readings are
    non-decreasing. *)
Theorem record_answer_monotone :
  (forall chat_id vocab_id text now (s : db),
     let s' := record_answer chat_id vocab_id text now s in
     answers s' = answers s ++
       [mk_answer (answers_seq s + 1) chat_id vocab_id text now] /\
     users s' = users s /\
     length (vocab s') = length (vocab s) /\
     forall i r, vocab s !! i = Some r ->
       exists r', vocab s' !! i = Some r' /\
         v_id r' = v_id r /\ v_chat_id r' = v_chat_id r /\
         v_text r' = v_text r /\ active r' = active r /\
         if decide (v_id r = vocab_id)
         then last_seen r' = Some now /\ strength r' = strength r + 1
         else last_seen r' = last_seen r /\ strength r' = strength r) /\
  (forall (ops : list op) (s : db) i r, vocab s !! i = Some r ->
     exists r', vocab (run ops s) !! i = Some r' /\
       v_id r' = v_id r /\ strength r <= strength r') /\
  (forall (ops : list op) (s : db),
     Sorted Py.dt_le (stamps ops) ->
     (forall r d n, r ∈ vocab s -> last_seen r = Some d -> n ∈ stamps ops ->
        Py.dt_le d n) ->
     forall i r d,
       vocab s !! i = Some r -> last_seen r = Some d ->
       exists r' d', vocab (run ops s) !! i = Some r' /\
         last_seen r' = Some d' /\ Py.dt_le d d') /\
  (forall pre post : list op,
     Sorted Py.dt_le (stamps (pre ++ post)) ->
     forall i r d,
       vocab (run pre empty_db) !! i = Some r -> last_seen r = Some d ->
       exists r' d', vocab (run post (run pre empty_db)) !! i = Some r' /\
         last_seen r' = Some d' /\ Py.dt_le d d').
Proof.
  split_and!.
  - intros c v t now s s'. subst s'.
    unfold record_answer, touch_vocab, with_vocab, insert_answer. simpl.
    split_and!; [done|done|by rewrite length_fmap|].
    intros i r Hi. rewrite list_lookup_fmap, Hi. simpl.
    eexists. split; [done|]. case_decide; simpl; by split_and!.
  - intros ops s i r. apply run_strength_mono.
  - intros ops s Hsort Hold i r d Hi Hd.
    apply Sorted_StronglySorted in Hsort; [|apply _].
    apply (run_last_seen_mono ops s i r d); [done| |done|done].
    intros n Hn. apply (Hold r d n); [|done|done].
    by eapply list_elem_of_lookup_2.
  - intros pre post Hsort i r d Hi Hd.
    apply Sorted_StronglySorted in Hsort; [|apply _].
    unfold stamps in Hsort. rewrite omap_app in Hsort.
    apply StronglySorted_app in Hsort as (Hcross & _ & Hpost).
    apply (run_last_seen_mono post _ i r d); [done| |done|done].
    intros n Hn. apply Hcross; [|done].
    apply (run_last_seen_stamp (fun d => d ∈ stamps pre) pre empty_db)
      with (r := r); [|done| |done].
    + intros r0 d0 Hr0. by apply elem_of_nil in Hr0.
    + by eapply list_elem_of_lookup_2.
Qed.

(** C10. [record_answer] finds the row to reinforce by its id alone: a row
    of [vocab] with the given id gets the new [last_seen] and one more
    [strength] whoever owns it, every other row is left as it was, and
    the answer appended carries the chat id of the caller. *)
Theorem record_answer_by_id (chat_id vocab_id : Z) (text : string)
  (now : Py.datetime) (s : db) (i : nat) (r : vocab_row) :
  vocab s !! i = Some r ->
  let s' := record_answer chat_id vocab_id text now s in
  (exists r', vocab s' !! i = Some r' /\
     v_chat_id r' = v_chat_id r /\
     (v_id r = vocab_id ->
        last_seen r' = Some now /\ strength r' = strength r + 1) /\
     (v_id r <> vocab_id -> r' = r)) /\
  (exists a, last (answers s') = Some a /\
     a_chat_id a = chat_id /\ a_vocab_id a = vocab_id /\
     a_text a = text /\ answered_at a = now).
Proof.
  intros Hi s'. subst s'.
  unfold record_answer, touch_vocab, with_vocab, insert_answer. simpl.
  split.
  - rewrite list_lookup_fmap, Hi. simpl. eexists. split; [done|].
    case_decide; simpl; split_and!; done.
  - eexists. rewrite last_snoc. by split_and!.
Qed.
End AnswerLog.

Section ExportAnswers.
Import Ord.

Lemma recorded_cons c o ops : recorded c (o :: ops) = recorded c [o] ++ recorded c ops.
Proof. unfold recorded. simpl. destruct o; try done. by case_decide. Qed.

Lemma log_of_exec c o s : log_of c (exec s o) = log_of c s ++ recorded c [o].
Proof.
  unfold log_of.
  destruct o as [c'|c' fs|c' t|c' v|c' v t now]; simpl;
    rewrite ?app_nil_r.
  - unfold get_user. by destruct (users s !! c').
  - unfold set_user. by destruct fs.
  - unfold add_vocab. by case_decide.
  - done.
  - rewrite filter_app, fmap_app. f_equal.
    rewrite filter_cons, filter_nil.
    destruct (decide (c' = c)) as [->|N];
      [rewrite decide_True by done|rewrite decide_False by done]; done.
Qed.

Lemma log_of_run c ops : forall s, log_of c (run ops s) = log_of c s ++ recorded c ops.
Proof.
  induction ops as [|o ops IH]; intros s.
  - simpl. by rewrite app_nil_r.
  - change (run (o :: ops) s) with (run ops (exec s o)).
    rewrite IH, log_of_exec, (recorded_cons c o ops). by rewrite app_assoc.
Qed.

Lemma export_rows_log is_pg c s : export_rows is_pg c s ≡ₚ log_of c s.
Proof. unfold export_rows, log_of. by rewrite merge_sort_Permutation. Qed.

Lemma export_rows_sorted is_pg c s :
  StronglySorted newest_first (export_rows is_pg c s).
Proof.
  unfold export_rows.
  apply (StronglySorted_fmap _ (desc (answered_key is_pg))).
  - intros x y H. unfold newest_first, Py.dt_le. simpl.
    unfold desc in H. rewrite answered_key_pg in H.
    intros G. apply H. by apply (cmp_gt_lt Py.dt_compare).
  - apply StronglySorted_merge_sort; apply _.
Qed.

(** C9. After any trace of writes, the export of a chat holds the rows it
    held before together with one row per answer the trace recorded for
    that chat, each with the text and the timestamp recorded, newest
    first; starting from the empty database these are exactly the [N]
    recorded answers. *)
Theorem export_round_trip (is_pg : bool) (chat_id : Z) (ops : list op) (s : db) :
  let rows := export_rows is_pg chat_id (run ops s) in
  rows ≡ₚ export_rows is_pg chat_id s ++ recorded chat_id ops /\
  StronglySorted newest_first rows /\
  length rows = (length (export_rows is_pg chat_id s)
                 + length (recorded chat_id ops))%nat /\
  export_rows is_pg chat_id (run ops empty_db) ≡ₚ recorded chat_id ops /\
  length (export_rows is_pg chat_id (run ops empty_db))
    = length (recorded chat_id ops).
Proof.
  intros rows. subst rows.
  assert (forall s0, export_rows is_pg chat_id (run ops s0)
            ≡ₚ export_rows is_pg chat_id s0 ++ recorded chat_id ops) as Hperm.
  { intros s0. by rewrite !export_rows_log, log_of_run. }
  split_and!.
  - apply Hperm.
  - apply export_rows_sorted.
  - by rewrite Hperm, length_app.
  - by rewrite Hperm.
  - by rewrite Hperm.
Qed.
End ExportAnswers.

(* ================================================================== *)
(** * The reminder scheduler                                           *)
(* ================================================================== *)

Section Scheduler.

Lemma choice_minutes (r : Z) : Py.choice MINUTES r ∈ MINUTES.
Proof.
  unfold Py.choice, MINUTES. simpl length.
  pose proof (Z.mod_pos_bound r (Z.of_nat 5) ltac:(lia)) as B.
  set (k := r `mod` Z.of_nat 5) in *.
  assert (k = 0 \/ k = 1 \/ k = 2 \/ k = 3 \/ k = 4) as Hk by lia.
  clearbody k. clear B.
  destruct Hk as [->|[->|[->|[->| ->]]]]; simpl; set_solver.
Qed.

Lemma minutes_range (m : Z) : m ∈ MINUTES -> 5 <= m <= 45.
Proof. unfold MINUTES. rewrite !elem_of_cons, elem_of_nil. lia. Qed.

Lemma randint_range (a b r : Z) : a <= b -> a <= Py.randint a b r <= b.
Proof.
  intros H. unfold Py.randint.
  pose proof (Z.mod_pos_bound r (b - a + 1) ltac:(lia)). lia.
Qed.

Lemma draw_hour_range rng i start_h end_h :
  start_h <= draw_hour rng i start_h end_h <= Z.max start_h (end_h - 1).
Proof. unfold draw_hour. apply randint_range. lia. Qed.

Lemma draw_minute_range rng i : 5 <= draw_minute rng i <= 45.
Proof. apply minutes_range, choice_minutes. Qed.

Lemma time_Some (h m : Z) :
  0 <= h <= 23 -> 0 <= m <= 59 -> time h m = Some (h * US_HOUR + m * US_MINUTE).
Proof.
  intros Hh Hm. unfold time, Py.between.
  destruct (Z.leb_spec 0 h), (Z.leb_spec h 23), (Z.leb_spec 0 m),
    (Z.leb_spec m 59); simpl; try lia. done.
Qed.

Lemma time_None (h m : Z) : ~ (0 <= h <= 23) -> time h m = None.
Proof.
  intros Hh. unfold time, Py.between.
  destruct (Z.leb_spec 0 h), (Z.leb_spec h 23); simpl; try lia; done.
Qed.

Lemma hour_of_combine (d h m : Z) :
  0 <= h <= 23 -> 0 <= m <= 59 ->
  hour_of (combine d (h * US_HOUR + m * US_MINUTE)) = h.
Proof.
  intros Hh Hm. unfold hour_of, combine, US_DAY, US_HOUR, US_MINUTE.
  rewrite Z.add_comm, Z.mod_add by lia.
  rewrite Z.mod_small by lia.
  symmetry. apply (Z.div_unique _ _ _ (m * 60000000)); lia.
Qed.

Lemma minute_of_combine (d h m : Z) :
  0 <= h <= 23 -> 0 <= m <= 59 ->
  minute_of (combine d (h * US_HOUR + m * US_MINUTE)) = m.
Proof.
  intros Hh Hm. unfold minute_of, combine, US_DAY, US_HOUR, US_MINUTE.
  replace (d * (24 * (60 * 60000000)) + (h * (60 * 60000000) + m * 60000000))
    with (m * 60000000 + (d * 24 + h) * (60 * 60000000)) by lia.
  rewrite Z.mod_add by lia. rewrite Z.mod_small by lia.
  apply Z.div_mul. lia.
Qed.

Lemma time_inv (h m t : Z) :
  time h m = Some t ->
  0 <= h <= 23 /\ 0 <= m <= 59 /\ t = h * US_HOUR + m * US_MINUTE.
Proof.
  unfold time, Py.between.
  destruct (Z.leb_spec 0 h), (Z.leb_spec h 23), (Z.leb_spec 0 m),
    (Z.leb_spec m 59); simpl; intros [= <-]; lia.
Qed.

Lemma target_range (count : Z) : 1 <= target count <= 12.
Proof. unfold target. lia. Qed.

Lemma date_of_combine (d h m : Z) :
  0 <= h <= 23 -> 0 <= m <= 59 ->
  date_of (combine d (h * US_HOUR + m * US_MINUTE)) = d.
Proof.
  intros Hh Hm. unfold date_of, combine, US_DAY, US_HOUR, US_MINUTE.
  symmetry.
  apply (Z.div_unique _ _ _ (h * (60 * 60000000) + m * 60000000)); lia.
Qed.

Lemma set_add_dom (t : aware) (planned : gmap Z Z) :
  dom (set_add t planned) = {[ instant t ]} ∪ dom planned.
Proof.
  unfold set_add. destruct (planned !! instant t) eqn:E.
  - apply elem_of_dom_2 in E. set_solver.
  - apply dom_insert_L.
Qed.

Lemma set_add_size (t : aware) (planned : gmap Z Z) :
  (size (set_add t planned) <= S (size planned))%nat.
Proof.
  unfold set_add. destruct (planned !! instant t) eqn:E; [lia|].
  rewrite map_size_insert_None by done. lia.
Qed.

(** An element of the set is one it held, or the one just added. *)
Lemma set_add_lookup (t : aware) (planned : gmap Z Z) (k w : Z) :
  set_add t planned !! k = Some w ->
  planned !! k = Some w \/ (k = instant t /\ w = wall t).
Proof.
  unfold set_add. destruct (planned !! instant t) eqn:E; [by left|].
  intros [[-> ->]|[_ H]]%lookup_insert_Some; [by right|by left].
Qed.

(** The set keeps the element it holds when an equal one is added. *)
Lemma set_add_keeps (t : aware) (planned : gmap Z Z) (k w : Z) :
  planned !! k = Some w -> set_add t planned !! k = Some w.
Proof.
  intros H. unfold set_add. destruct (planned !! instant t) eqn:E; [done|].
  rewrite lookup_insert_ne; [done|]. intros <-. congruence.
Qed.

Section Loop.
Context (rng : nat -> Z) (start_h end_h count : Z) (rd : reading).

Let loop (fuel i : nat) (planned : gmap Z Z) : outcome (gmap Z Z) :=
  plan_loop fuel rng i start_h end_h count rd planned.
Let cand (i : nat) : aware := run_at rng start_h end_h rd i.
Let keep (i : nat) (planned : gmap Z Z) : gmap Z Z :=
  if bool_decide (later rd (cand i)) then set_add (cand i) planned else planned.

Lemma plan_loop_done fuel i planned :
  ~ (Z.of_nat (size planned) < target count) ->
  loop fuel i planned = Returned planned.
Proof.
  intros H. unfold loop. destruct fuel; simpl; by rewrite bool_decide_false.
Qed.

Lemma plan_loop_step fuel i planned :
  Z.of_nat (size planned) < target count ->
  0 <= draw_hour rng i start_h end_h <= 23 ->
  loop (S fuel) i planned = loop fuel (S (S i)) (keep i planned).
Proof.
  intros H Hh. unfold loop, keep, cand, run_at. simpl.
  rewrite bool_decide_true by done.
  rewrite time_Some; [|done|].
  - done.
  - pose proof (draw_minute_range rng i). lia.
Qed.

Lemma plan_loop_raise fuel i planned :
  Z.of_nat (size planned) < target count ->
  ~ (0 <= draw_hour rng i start_h end_h <= 23) ->
  loop (S fuel) i planned = Raised ValueError.
Proof.
  intros H Hh. unfold loop. simpl.
  rewrite bool_decide_true by done. by rewrite time_None.
Qed.

Lemma cand_in_window i :
  0 <= draw_hour rng i start_h end_h <= 23 ->
  later rd (cand i) -> in_window start_h end_h rd (cand i).
Proof.
  intros Hh Hlt. pose proof (draw_minute_range rng i) as Hm.
  unfold in_window, cand, run_at, localize in *. cbn [wall].
  rewrite date_of_combine, hour_of_combine, minute_of_combine by lia.
  split_and!; [done|done|done|apply draw_hour_range..|apply choice_minutes].
Qed.

Lemma keep_size i planned :
  (size (keep i planned) <= S (size planned))%nat.
Proof. unfold keep. case_bool_decide; [apply set_add_size | lia]. Qed.

Lemma keep_dom i planned :
  dom (keep i planned)
  = (if bool_decide (later rd (cand i)) then {[ instant (cand i) ]} else ∅)
    ∪ dom planned.
Proof.
  unfold keep. case_bool_decide; [apply set_add_dom|].
  by rewrite (left_id_L ∅ (∪)).
Qed.

(** What the loop returns, when it returns. *)
Lemma plan_loop_returned fuel : forall i planned res,
  (forall k w, planned !! k = Some w ->
     in_window start_h end_h rd (mk_aware w k)) ->
  Z.of_nat (size planned) <= target count ->
  loop fuel i planned = Returned res ->
  (forall k w, res !! k = Some w ->
     in_window start_h end_h rd (mk_aware w k)) /\
  Z.of_nat (size res) = target count.
Proof.
  induction fuel as [|fuel IH]; intros i planned res Hwin Hsize Hret.
  - unfold loop in Hret. simpl in Hret. case_bool_decide; [done|].
    simplify_eq. split; [done|lia].
  - destruct (decide (Z.of_nat (size planned) < target count)) as [Hlt|Hge].
    + destruct (decide (0 <= draw_hour rng i start_h end_h <= 23)) as [Hh|Hh].
      * rewrite plan_loop_step in Hret by done.
        apply IH in Hret; [done| |].
        -- intros k w. unfold keep. case_bool_decide; [|by auto].
           intros [?|[-> ->]]%set_add_lookup; [by auto|].
           by apply cand_in_window.
        -- pose proof (keep_size i planned). lia.
      * by rewrite plan_loop_raise in Hret.
    + rewrite plan_loop_done in Hret by done. simplify_eq.
      split; [done|lia].
Qed.

(** The loop ends as soon as the draws have produced enough distinct
    instants later than [now]. *)
Lemma plan_loop_terminates k : forall fuel i planned,
  0 <= start_h -> Z.max start_h (end_h - 1) <= 23 ->
  (k <= fuel)%nat ->
  target count
    <= Z.of_nat (size (dom planned ∪ future rng start_h end_h rd k i)) ->
  exists res, loop fuel i planned = Returned res.
Proof.
  induction k as [|k IH]; intros fuel i planned H0 H23 Hfuel Hcover.
  - simpl in Hcover. rewrite (right_id_L ∅ (∪)), size_dom in Hcover.
    exists planned. apply plan_loop_done. lia.
  - destruct (decide (Z.of_nat (size planned) < target count)) as [Hlt|Hge];
      [|exists planned; by apply plan_loop_done].
    destruct fuel as [|fuel]; [lia|].
    pose proof (draw_hour_range rng i start_h end_h).
    rewrite plan_loop_step by (done || lia).
    apply IH; [done|done|lia|].
    replace (dom (keep i planned) ∪ future rng start_h end_h rd k (S (S i)))
      with (dom planned ∪ future rng start_h end_h rd (S k) i); [done|].
    rewrite keep_dom. unfold cand. simpl. set_solver.
Qed.

(** The loop never ends when fewer instants than asked for can ever be
    later than [now]. *)
Lemma plan_loop_starved (slots : gset Z) :
  0 <= start_h -> Z.max start_h (end_h - 1) <= 23 ->
  Z.of_nat (size slots) < target count ->
  (forall i, later rd (cand i) -> instant (cand i) ∈ slots) ->
  forall fuel i planned, dom planned ⊆ slots -> loop fuel i planned = OutOfFuel.
Proof.
  intros H0 H23 Hfew Hslots.
  induction fuel as [|fuel IH]; intros i planned Hsub.
  - unfold loop. simpl. rewrite bool_decide_true; [done|].
    pose proof (subseteq_size _ _ Hsub) as Hs. rewrite size_dom in Hs. lia.
  - pose proof (draw_hour_range rng i start_h end_h).
    pose proof (subseteq_size _ _ Hsub) as Hs. rewrite size_dom in Hs.
    rewrite plan_loop_step by lia.
    apply IH. rewrite keep_dom. case_bool_decide; [|set_solver].
    specialize (Hslots i). set_solver.
Qed.
End Loop.

Lemma set_db_same (w : world) : set_db (w_db w) w = w.
Proof. by destruct w. Qed.

Lemma get_user_known c (s : db) u :
  users s !! c = Some u -> get_user c s = (u, s).
Proof. intros H. unfold get_user. by rewrite H. Qed.

(** When [schedule_today] can find no way to fill the plan, it neither
    returns nor raises, whatever fuel its loop is given. *)
Lemma schedule_today_starved (slots : gset Z) fuel tznow rng c w u rd :
  users (w_db w) !! c = Some u ->
  tznow (tz u) = Some rd ->
  0 <= start_hour u -> Z.max (start_hour u) (end_hour u - 1) <= 23 ->
  Z.of_nat (size slots) < target (daily_count u) ->
  (forall i, later rd (run_at rng (start_hour u) (end_hour u) rd i) ->
             instant (run_at rng (start_hour u) (end_hour u) rd i) ∈ slots) ->
  schedule_today fuel tznow rng c w = (OutOfFuel, w).
Proof.
  intros Hu Htz H0 H23 Hfew Hslots. unfold schedule_today.
  rewrite (get_user_known _ _ _ Hu), set_db_same, Htz.
  rewrite (plan_loop_starved _ _ _ _ _ slots); [done..|].
  by rewrite dom_empty_L.
Qed.

(** With a first hour above 23, or a window that ends below 0, the first
    draw of [schedule_today] is no hour of the day. *)
Lemma schedule_today_bad_hours fuel tznow rng c w u :
  users (w_db w) !! c = Some u ->
  is_Some (tznow (tz u)) ->
  23 < start_hour u \/ Z.max (start_hour u) (end_hour u - 1) < 0 ->
  schedule_today (S fuel) tznow rng c w = (Raised ValueError, w).
Proof.
  intros Hu [rd Htz] Hbad. unfold schedule_today.
  rewrite (get_user_known _ _ _ Hu), set_db_same, Htz.
  rewrite (plan_loop_raise rng (start_hour u) (end_hour u)
             (daily_count u) rd fuel 0 ∅); [done| |].
  - rewrite map_size_empty. pose proof (target_range (daily_count u)). lia.
  - pose proof (draw_hour_range rng 0 (start_hour u) (end_hour u)). lia.
Qed.

#[local] Instance entry_le_total : Total entry_le.
Proof. intros p q. unfold entry_le. lia. Qed.

(** [sorted] lists the elements of the set, each once, by ascending
    instant. *)
Lemma sorted_spec (planned : gmap Z Z) :
  length (sorted planned) = size planned /\
  NoDup (instant <$> sorted planned) /\
  Sorted (fun a b => instant a <= instant b) (sorted planned) /\
  (forall t, t ∈ sorted planned <-> planned !! instant t = Some (wall t)).
Proof.
  unfold sorted.
  pose proof (merge_sort_Permutation entry_le (map_to_list planned)) as Hperm.
  split_and!.
  - by rewrite length_fmap, Hperm, length_map_to_list.
  - rewrite <- list_fmap_compose.
    change (instant ∘ (fun p : Z * Z => mk_aware p.2 p.1)) with (@fst Z Z).
    rewrite Hperm. apply NoDup_fst_map_to_list.
  - apply (Sorted_fmap _ entry_le); [done|].
    apply Sorted_merge_sort, _.
  - intros t. rewrite list_elem_of_fmap. split.
    + intros ([k w] & -> & Hin). rewrite Hperm in Hin.
      by apply elem_of_map_to_list in Hin.
    + intros Hin. exists (instant t, wall t). split; [by destruct t|].
      rewrite Hperm. by apply elem_of_map_to_list.
Qed.

(** C1 (what the code does instead).  With the window 10-12 and three
    reminders a day, planned at 11:50 local time, the loop of
    [schedule_today] is still running after any number of iterations,
    whatever the generator yields: every candidate is at 11:45 at the
    latest, so none is kept, and nothing bounds the number of draws. *)
Theorem schedule_today_elapsed_window (fuel : nat) (rng : nat -> Z) :
  schedule_today fuel (Scenario.at_time 11 50) rng 1 (Scenario.chat1 10 12 3)
  = (OutOfFuel, Scenario.chat1 10 12 3).
Proof.
  eapply (schedule_today_starved ∅); [reflexivity|reflexivity|simpl; lia..| |].
  - rewrite size_empty. vm_compute. done.
  - intros i Hlt. exfalso. cbn [start_hour end_hour] in Hlt.
    pose proof (draw_hour_range rng i 10 12) as Hh.
    pose proof (draw_minute_range rng i) as Hm.
    unfold later, run_at, localize, Scenario.fixed_offset in Hlt.
    cbn [rd_now rd_localize wall instant] in Hlt.
    unfold combine, date_of, US_DAY, US_HOUR, US_MINUTE in Hlt.
    change (Z.max 10 (12 - 1)) with 11 in Hh.
    rewrite Z.div_small in Hlt by lia. lia.
Qed.

(** C2, as the code has it.  For a chat whose window satisfies
    [0 <= start < end <= 24], in a zone pytz knows: as soon as the draws
    include [clamp(count,1,12)] candidates later than the planning instant
    that denote distinct instants, [schedule_today] returns, and it has
    then registered, after the jobs already there, one job per planned
    timestamp in ascending order; the timestamps are [clamp(count,1,12)]
    many, they denote distinct instants, each is later than the planning
    instant, and each is what the zone makes of a clock reading of today
    with its hour in [start .. max(start, end-1)] and its minute among 5,
    15, 25, 35, 45. *)
Theorem schedule_today_plans (fuel k : nat) (tznow : string -> option reading)
  (rng : nat -> Z) (chat_id : Z) (w : world) (u : user_row) (rd : reading) :
  users (w_db w) !! chat_id = Some u ->
  tznow (tz u) = Some rd ->
  0 <= start_hour u /\ start_hour u < end_hour u <= 24 ->
  target (daily_count u)
    <= Z.of_nat (size (future rng (start_hour u) (end_hour u) rd k 0)) ->
  (k <= fuel)%nat ->
  exists ts : list aware,
    schedule_today fuel tznow rng chat_id w
      = (Returned tt,
         add_jobs ((fun t => mk_job (tz u) t chat_id) <$> ts) w) /\
    Z.of_nat (length ts) = target (daily_count u) /\
    NoDup (instant <$> ts) /\
    Sorted (fun a b => instant a <= instant b) ts /\
    forall t, t ∈ ts -> in_window (start_hour u) (end_hour u) rd t.
Proof.
  intros Hu Htz Hwin Hcover Hfuel. unfold schedule_today.
  rewrite (get_user_known _ _ _ Hu), set_db_same, Htz.
  destruct (plan_loop_terminates rng (start_hour u) (end_hour u)
              (daily_count u) rd k fuel 0%nat ∅) as [res Hres];
    [lia|lia|done|by rewrite dom_empty_L, (left_id_L ∅ (∪))|].
  rewrite Hres.
  apply plan_loop_returned in Hres as [Hall Hsize];
    [|intros k0 w0; by rewrite lookup_empty
     |rewrite map_size_empty; pose proof (target_range (daily_count u)); lia].
  destruct (sorted_spec res) as (Hlen & Hnodup & Hsort & Hin).
  exists (sorted res). split_and!; [done|by rewrite Hlen|done|done|].
  intros [tw ti] Ht. apply Hin in Ht. by apply Hall.
Qed.

(** At 09:00, with the window 10-12 and three reminders a day, the
    generator 0, 7, 14, ... fills the plan within three draws. *)
Lemma schedule_today_plans_witness :
  exists ts : list aware,
    schedule_today 3 (Scenario.at_time 9 0) Scenario.sevens 1
      (Scenario.chat1 10 12 3)
      = (Returned tt,
         add_jobs ((fun t => mk_job "Europe/Kyiv" t 1) <$> ts)
           (Scenario.chat1 10 12 3)) /\
    Z.of_nat (length ts) = target 3 /\
    NoDup (instant <$> ts) /\
    Sorted (fun a b => instant a <= instant b) ts /\
    forall t, t ∈ ts ->
      in_window 10 12
        (Scenario.fixed_offset (2 * US_HOUR) (9 * US_HOUR + 0 * US_MINUTE)) t.
Proof.
  apply (schedule_today_plans 3 3 (Scenario.at_time 9 0) Scenario.sevens 1
           (Scenario.chat1 10 12 3)
           {| tz := "Europe/Kyiv"; start_hour := 10; end_hour := 12;
              daily_count := 3 |}).
  - reflexivity.
  - reflexivity.
  - simpl. lia.
  - vm_compute. discriminate.
  - lia.
Defined.

(** The claim of C2 fails as it stands: with the window 10-11 there are
    five candidate times in a day, so a plan of twelve distinct ones is
    never completed and [schedule_today] produces nothing. *)
Lemma schedule_today_too_many :
  ~ exists fuel rng w',
      schedule_today fuel (Scenario.at_time 9 0) rng 1
        (Scenario.chat1 10 11 12) = (Returned tt, w').
Proof.
  intros (fuel & rng & w' & H).
  rewrite (schedule_today_starved
             (list_to_set ((fun m => 8 * US_HOUR + m * US_MINUTE) <$> MINUTES))
             fuel _ rng 1 _
             {| tz := "Europe/Kyiv"; start_hour := 10; end_hour := 11;
                daily_count := 12 |}
             (Scenario.fixed_offset (2 * US_HOUR) (9 * US_HOUR + 0 * US_MINUTE)))
    in H; [done|reflexivity|reflexivity|simpl; lia..| |].
  - vm_compute. done.
  - intros i _. cbn [start_hour end_hour].
    pose proof (draw_hour_range rng i 10 11) as Hh.
    change (Z.max 10 (11 - 1)) with 10 in Hh.
    pose proof (choice_minutes (rng (S i))) as Hm.
    fold (draw_minute rng i) in Hm.
    unfold run_at, localize, Scenario.fixed_offset.
    cbn [rd_now rd_localize wall instant].
    unfold combine, date_of.
    assert (draw_hour rng i 10 11 = 10) as -> by lia.
    rewrite Z.div_small by (unfold US_DAY, US_HOUR, US_MINUTE; lia).
    apply elem_of_list_to_set, list_elem_of_fmap.
    exists (draw_minute rng i). split; [|done].
    unfold US_DAY, US_HOUR, US_MINUTE. lia.
Qed.

Lemma schedule_today_jobs fuel tznow rng c w :
  exists new,
    w_jobs (schedule_today fuel tznow rng c w).2 = w_jobs w ++ new /\
    Forall (fun j => job_chat_id j = c) new /\
    ((schedule_today fuel tznow rng c w).1 <> Returned tt -> new = []).
Proof.
  unfold schedule_today. destruct (get_user c (w_db w)) as [u s].
  destruct (tznow (tz u)) as [now|]; simpl.
  - destruct (plan_loop _ _ _ _ _ _ _ _) as [planned|e|]; simpl.
    + eexists. split; [done|]. split; [|done].
      apply Forall_fmap, Forall_forall. done.
    + exists []. by rewrite app_nil_r.
    + exists []. by rewrite app_nil_r.
  - exists []. by rewrite app_nil_r.
Qed.

(** C6. [schedule_today] only ever adds jobs: every job registered before
    a call is still registered after it, in its place and unchanged,
    however the call ends; so after a second call for the same chat the
    jobs of the first call stand, followed by those of the second. *)
Theorem schedule_today_keeps_jobs (fuel1 fuel2 : nat)
  (tznow1 tznow2 : string -> option reading) (rng1 rng2 : nat -> Z)
  (chat_id : Z) (w : world) :
  let r1 := schedule_today fuel1 tznow1 rng1 chat_id w in
  let r2 := schedule_today fuel2 tznow2 rng2 chat_id r1.2 in
  exists new1 new2,
    w_jobs r1.2 = w_jobs w ++ new1 /\
    w_jobs r2.2 = w_jobs w ++ new1 ++ new2 /\
    (forall i j, w_jobs r1.2 !! i = Some j -> w_jobs r2.2 !! i = Some j) /\
    Forall (fun j => job_chat_id j = chat_id) (new1 ++ new2).
Proof.
  intros r1 r2.
  destruct (schedule_today_jobs fuel1 tznow1 rng1 chat_id w)
    as (new1 & E1 & F1 & _).
  destruct (schedule_today_jobs fuel2 tznow2 rng2 chat_id r1.2)
    as (new2 & E2 & F2 & _).
  exists new1, new2. subst r1 r2. split_and!.
  - done.
  - by rewrite E2, E1, app_assoc.
  - intros i j Hi. rewrite E2. by apply lookup_app_l_Some.
  - by apply Forall_app.
Qed.
End Scheduler.

(* ================================================================== *)
(** * The settings handler                                             *)
(* ================================================================== *)

Section Settings.
Import Handlers.

Lemma get_user_lookup c (s : db) :
  users (get_user c s).2 !! c = Some (get_user c s).1.
Proof.
  unfold get_user. destruct (users s !! c) eqn:E; simpl; [done|].
  apply lookup_insert_eq.
Qed.

Lemma schedule_today_db fuel tznow rng c w :
  w_db (schedule_today fuel tznow rng c w).2 = (get_user c (w_db w)).2 /\
  w_sent (schedule_today fuel tznow rng c w).2 = w_sent w.
Proof.
  unfold schedule_today. destruct (get_user c (w_db w)) as [u s].
  destruct (tznow (tz u)) as [now|]; simpl; [|done].
  by destruct (plan_loop _ _ _ _ _ _ _ _).
Qed.

(** C5 (what the code does instead), for a chat id of Telegram.  A request
    with fewer than three arguments, or with one of the first three that
    [int] rejects, is answered with the usage text and changes no setting
    and no job: the database is what [get_user] leaves, that is, untouched
    when the chat is known; so is a request with a number that the driver
    or the column does not take.  Every other request is stored exactly as
    parsed, hours unchecked and count unclamped, and acknowledged, before
    any planning; when its first hour is above 23, planning then raises at
    its first draw, and the usage text follows, with the settings of
    before, on a database that holds the new ones. *)
Theorem settings_cmd_persists (is_pg : bool) (fuel : nat)
  (tznow : string -> option reading) (rng : nat -> Z) (chat_id : Z)
  (args : list string) (w : world) :
  Driver.binds is_pg chat_id = true ->
  let u := (get_user chat_id (w_db w)).1 in
  let s := (get_user chat_id (w_db w)).2 in
  let res := settings_cmd is_pg fuel tznow rng chat_id args w in
  let usage := (Returned tt, reply_text chat_id (Usage u) (set_db s w)) in
  (is_Some (users (w_db w) !! chat_id) -> s = w_db w) /\
  ((length args < 3)%nat \/ (exists a, a ∈ take 3 args /\ Py.int a = None) ->
     res = usage) /\
  (forall a0 a1 a2 rest count start_h end_h,
     args = a0 :: a1 :: a2 :: rest ->
     Py.int a0 = Some count -> Py.int a1 = Some start_h ->
     Py.int a2 = Some end_h ->
     let tz_name := match rest with a3 :: _ => a3 | [] => tz u end in
     let fields := [F_daily_count count; F_start_hour start_h;
                    F_end_hour end_h; F_tz tz_name] in
     if forallb (Driver.field_ok is_pg) fields
     then
       users (w_db res.2) !! chat_id
         = Some {| tz := tz_name; start_hour := start_h; end_hour := end_h;
                   daily_count := count |} /\
       (chat_id, Updated count start_h end_h tz_name) ∈ w_sent res.2 /\
       (23 < start_h -> is_Some (tznow tz_name) -> (0 < fuel)%nat ->
        res = (Returned tt,
               reply_text chat_id (Usage u)
                 (reply_text chat_id (Updated count start_h end_h tz_name)
                    (set_db (set_user chat_id fields s) w))))
     else res = usage).
Proof.
  intros Hchat u s res usage. split_and!.
  - intros [u0 Hu0]. subst s. by rewrite (get_user_known _ _ _ Hu0).
  - intros Hbad. subst res usage u s. unfold settings_cmd.
    destruct (get_user chat_id (w_db w)) as [u s]. simpl.
    destruct args as [|a0 [|a1 [|a2 rest]]]; try done.
    destruct Hbad as [Hlen|(a & Ha & Hint)]; [simpl in Hlen; lia|].
    simpl in Ha. rewrite take_0 in Ha.
    rewrite !elem_of_cons, elem_of_nil in Ha.
    destruct Ha as [->|[->|[->|[]]]]; rewrite Hint;
      repeat case_match; done.
  - intros a0 a1 a2 rest count start_h end_h -> H0 H1 H2.
    pose proof (get_user_lookup chat_id (w_db w)) as Hlook.
    subst res usage u s. cbv zeta. unfold settings_cmd.
    destruct (get_user chat_id (w_db w)) as [u s]. simpl in Hlook.
    cbn [fst snd]. rewrite H0, H1, H2.
    set (tz_name := match rest with a3 :: _ => a3 | [] => tz u end) in *.
    set (fields := [F_daily_count count; F_start_hour start_h;
                    F_end_hour end_h; F_tz tz_name]).
    cbn [w_db set_db]. unfold Driver.set_user. fold fields.
    change (match fields with [] => Returned s | _ :: _ => ?x end) with x.
    rewrite Hchat, andb_true_r.
    destruct (forallb (Driver.field_ok is_pg) fields); [|done].
    set (w2 := reply_text chat_id (Updated count start_h end_h tz_name) _).
    assert (users (w_db w2) !! chat_id
              = Some {| tz := tz_name; start_hour := start_h;
                        end_hour := end_h; daily_count := count |}) as Hw2.
    { subst w2. simpl. rewrite lookup_alter_eq, Hlook. done. }
    destruct (schedule_today_db fuel tznow rng chat_id w2) as [Hdb Hsent].
    rewrite (get_user_known _ _ _ Hw2) in Hdb. simpl in Hdb.
    assert ((chat_id, Updated count start_h end_h tz_name) ∈ w_sent w2) as Hin.
    { subst w2. simpl. apply elem_of_app. right. left. }
    split_and!.
    + destruct (schedule_today fuel tznow rng chat_id w2) as [[[]|e|] w'];
        simpl in *; by rewrite Hdb.
    + destruct (schedule_today fuel tznow rng chat_id w2) as [[[]|e|] w'];
        simpl in *; rewrite ?Hsent; [done| |done].
      apply elem_of_app. by left.
    + intros Hbad Htz Hfuel. destruct fuel as [|fuel]; [lia|].
      rewrite (schedule_today_bad_hours fuel tznow rng chat_id w2 _ Hw2);
        [done|done|by left].
Qed.

(** [/settings 3 25 30] on SQLite, for a chat with the window 10-21: the
    hours 25 and 30 are stored and acknowledged, then the usage text
    follows. *)
Lemma settings_cmd_persists_witness :
  settings_cmd false 5 (Scenario.at_time 9 0) Scenario.sevens 1
    ["3"; "25"; "30"] (Scenario.chat1 10 21 3)
  = (Returned tt,
     reply_text 1 (Usage {| tz := "Europe/Kyiv"; start_hour := 10;
                            end_hour := 21; daily_count := 3 |})
       (reply_text 1 (Updated 3 25 30 "Europe/Kyiv")
          (set_db
             (set_user 1 [F_daily_count 3; F_start_hour 25; F_end_hour 30;
                          F_tz "Europe/Kyiv"]
                (w_db (Scenario.chat1 10 21 3)))
             (Scenario.chat1 10 21 3)))).
Proof.
  apply (proj2 (proj2 (settings_cmd_persists false 5 (Scenario.at_time 9 0)
                         Scenario.sevens 1 ["3"; "25"; "30"]
                         (Scenario.chat1 10 21 3) eq_refl))
           "3" "25" "30" [] 3 25 30 eq_refl eq_refl eq_refl eq_refl).
  - lia.
  - by eexists.
  - lia.
Defined.

(** What [/settings 3 25 30] and [/settings 100 10 21] leave behind. *)
Example settings_cmd_out_of_range :
  let before := Scenario.chat1 10 21 3 in
  let res := settings_cmd false 5 (Scenario.at_time 9 0) Scenario.sevens 1
               ["3"; "25"; "30"] before in
  let res' := settings_cmd false 40 (Scenario.at_time 9 0) Scenario.sevens 1
                ["100"; "10"; "21"] before in
  (res.1 = Returned tt /\
   last (w_sent res.2) = Some (1, Usage {| tz := "Europe/Kyiv"; start_hour := 10;
                                           end_hour := 21; daily_count := 3 |}) /\
   users (w_db res.2) !! 1
     = Some {| tz := "Europe/Kyiv"; start_hour := 25; end_hour := 30;
               daily_count := 3 |} /\
   w_db res.2 <> w_db before) /\
  (res'.1 = Returned tt /\
   users (w_db res'.2) !! 1
     = Some {| tz := "Europe/Kyiv"; start_hour := 10; end_hour := 21;
               daily_count := 100 |}).
Proof.
  intros before res res'. split_and!.
  - by vm_compute.
  - by vm_compute.
  - by vm_compute.
  - intros H. apply (f_equal (fun d => start_hour <$> users d !! 1)) in H.
    vm_compute in H. discriminate.
  - by vm_compute.
  - by vm_compute.
Qed.

(** A number of twenty digits is not stored: SQLite's driver does not bind
    it, PostgreSQL's column does not take it; the usage text is all that
    follows. *)
Example settings_cmd_huge (is_pg : bool) :
  settings_cmd is_pg 5 (Scenario.at_time 9 0) Scenario.sevens 1
    ["99999999999999999999"; "10"; "12"] (Scenario.chat1 10 21 3)
  = (Returned tt,
     reply_text 1 (Usage {| tz := "Europe/Kyiv"; start_hour := 10;
                            end_hour := 21; daily_count := 3 |})
       (Scenario.chat1 10 21 3)).
Proof. by destruct is_pg; vm_compute. Qed.
End Settings.

(* ================================================================== *)
(** * Worked instances                                                 *)
(* ================================================================== *)

Section Instances.

(** Chat 1 holds "tea", practised at noon, and "milk", never practised:
    on SQLite the pick is "milk". *)
Lemma pick_vocab_first_witness :
  let s := run [Op_add_vocab 1 (Some "tea"); Op_add_vocab 1 (Some "milk");
                Op_record_answer 1 1 "I like tea" Scenario.noon] empty_db in
  let r := mk_vocab 2 1 "milk" None 0 1 in
  r ∈ vocab s /\ active_of 1 r /\
  exists i, filter (active_of 1) (vocab s) !! i = Some r /\
    forall j r', filter (active_of 1) (vocab s) !! j = Some r' ->
      sorts_before r r' /\ (tied r r' -> 0 <= 0).
Proof.
  intros s r.
  apply (proj2 (pick_vocab_first false (fun _ => 0) 1 s) r).
  vm_compute. reflexivity.
Defined.

(** "tea" is practised at noon and again in the evening: its [last_seen]
    moves forward. *)
Lemma record_answer_monotone_witness :
  let pre := [Op_add_vocab 1 (Some "tea");
              Op_record_answer 1 1 "tea at noon" Scenario.noon] in
  let post := [Op_record_answer 1 1 "tea again" Scenario.evening] in
  exists r' d', vocab (run post (run pre empty_db)) !! 0%nat = Some r' /\
    last_seen r' = Some d' /\ Py.dt_le Scenario.noon d'.
Proof.
  intros pre post.
  apply (proj2 (proj2 (proj2 record_answer_monotone)) pre post)
    with (r := mk_vocab 1 1 "tea" (Some Scenario.noon) 1 1).
  - repeat constructor. by vm_compute.
  - vm_compute. reflexivity.
  - reflexivity.
Defined.

(** The claim of C4 fails as it stands: nothing in [record_answer] compares
    the clock reading with the [last_seen] it replaces.  "tea" is practised
    in the evening; the clock is then set back, and an answer recorded at
    noon moves its [last_seen] back to noon. *)
Lemma record_answer_clock_set_back :
  let s := run [Op_add_vocab 1 (Some "tea");
                Op_record_answer 1 1 "tea" Scenario.evening] empty_db in
  let s' := record_answer 1 1 "tea again" Scenario.noon s in
  last_seen <$> vocab s = [Some Scenario.evening] /\
  last_seen <$> vocab s' = [Some Scenario.noon] /\
  ~ Py.dt_le Scenario.evening Scenario.noon.
Proof.
  intros s s'. split_and!; [reflexivity|reflexivity|].
  by vm_compute.
Qed.

(** "tea" belongs to chat 2; an answer of chat 1 that names its id
    reinforces it all the same. *)
Lemma record_answer_by_id_witness :
  let s := add_vocab 2 (Some "tea") empty_db in
  let s' := record_answer 1 1 "mine" Scenario.noon s in
  (exists r', vocab s' !! 0%nat = Some r' /\
     v_chat_id r' = 2 /\
     (1 = 1 -> last_seen r' = Some Scenario.noon /\ strength r' = 0 + 1) /\
     (1 <> 1 -> r' = mk_vocab 1 2 "tea" None 0 1)) /\
  (exists a, last (answers s') = Some a /\
     a_chat_id a = 1 /\ a_vocab_id a = 1 /\
     a_text a = "mine" /\ answered_at a = Scenario.noon).
Proof.
  intros s s'.
  apply (record_answer_by_id 1 1 "mine" Scenario.noon s 0
           (mk_vocab 1 2 "tea" None 0 1)).
  vm_compute. reflexivity.
Defined.

(** [add("")] and [add("   ")] leave the vocabulary as it is. *)
Example add_vocab_blank (chat_id : Z) (s : db) :
  add_vocab chat_id (Some "") s = s /\
  add_vocab chat_id (Some "   ") s = s /\
  add_vocab chat_id None s = s.
Proof.
  split_and!; unfold add_vocab;
    (case_decide as H; [done | exfalso; apply H; by vm_compute]).
Qed.

(** Window 10-12, three a day, planned at 09:00: three jobs, all within
    10:05-11:45. *)
Example schedule_today_morning :
  w_jobs (schedule_today 3 (Scenario.at_time 9 0) Scenario.sevens 1
            (Scenario.chat1 10 12 3)).2
  = [mk_job "Europe/Kyiv"
       (mk_aware (10 * US_HOUR + 5 * US_MINUTE) (8 * US_HOUR + 5 * US_MINUTE)) 1;
     mk_job "Europe/Kyiv"
       (mk_aware (10 * US_HOUR + 15 * US_MINUTE) (8 * US_HOUR + 15 * US_MINUTE)) 1;
     mk_job "Europe/Kyiv"
       (mk_aware (10 * US_HOUR + 25 * US_MINUTE) (8 * US_HOUR + 25 * US_MINUTE)) 1].
Proof. by vm_compute. Qed.

(** On the day Kyiv's clocks skip from 03:00 to 04:00, the ten clock
    readings of the window 3-5 denote five instants only (03:25 and 04:25
    are one and the same): planned at 00:30, six reminders are never
    found. *)
Example schedule_today_spring_forward (fuel : nat) (rng : nat -> Z) :
  schedule_today fuel (Scenario.spring_forward 0 30) rng 1
    (Scenario.chat1 3 5 6)
  = (OutOfFuel, Scenario.chat1 3 5 6).
Proof.
  eapply (schedule_today_starved
            (list_to_set ((fun m => 1 * US_HOUR + m * US_MINUTE) <$> MINUTES)));
    [reflexivity|reflexivity|simpl; lia..| |].
  - by vm_compute.
  - intros i _. cbn [start_hour end_hour].
    pose proof (draw_hour_range rng i 3 5) as Hh.
    change (Z.max 3 (5 - 1)) with 4 in Hh.
    pose proof (choice_minutes (rng (S i))) as Hm.
    fold (draw_minute rng i) in Hm.
    pose proof (minutes_range _ Hm) as Hr.
    unfold run_at, localize, Scenario.kyiv.
    cbn [rd_now rd_localize wall instant].
    unfold Scenario.kyiv_offset, combine, date_of.
    rewrite Z.div_small by (unfold US_DAY, US_HOUR, US_MINUTE; lia).
    apply elem_of_list_to_set, list_elem_of_fmap.
    exists (draw_minute rng i). split; [|done].
    unfold US_DAY, US_HOUR, US_MINUTE in *.
    case_match; [apply Z.ltb_lt in H|apply Z.ltb_ge in H]; lia.
Qed.

(** On that day at 04:10, with the window 3-4 and one reminder: the
    candidate 03:25 lies in the hour that is skipped, [localize] places it
    at 01:25 UTC, a quarter of an hour after the planning instant, and it
    is registered. *)
Example schedule_today_skipped_hour :
  schedule_today 1 (Scenario.spring_forward 4 10) Scenario.sevens 1
    (Scenario.chat1 3 4 1)
  = (Returned tt,
     add_jobs
       [mk_job "Europe/Kyiv"
          (mk_aware (3 * US_HOUR + 25 * US_MINUTE) (1 * US_HOUR + 25 * US_MINUTE)) 1]
       (Scenario.chat1 3 4 1)).
Proof. by vm_compute. Qed.
End Instances.

(* ================================================================== *)
(** * The random draw among ties                                       *)
(* ================================================================== *)

Section Ties.
Import Ord.

Lemma sorts_before_lt (r r' : vocab_row) (x x' : Z) :
  sorts_before r r' -> x < x' -> pick_order true (r, x) (r', x') = Lt.
Proof.
  unfold pick_order, pg_seen_key, lex_cmp, cmp_on, sorts_before,
    nulls_first, compose. simpl.
  intros H Hx. apply Z.compare_lt_iff in Hx.
  destruct (last_seen r) as [a|], (last_seen r') as [b|]; simpl; try done.
  - destruct H as [->|[-> H]]; simpl; [done|].
    destruct (Z.compare_spec (strength r) (strength r')); simpl; try done. lia.
  - destruct (Z.compare_spec (strength r) (strength r')); simpl; try done. lia.
Qed.

(** X1. Every selected row that stands first under the first two keys is
    the pick for some values of [random()]: the draw decides among the
    ties, and it can decide for any of them. *)
Theorem pick_vocab_any_tie (is_pg : bool) (chat_id : Z) (s : db) (i : nat)
  (r : vocab_row) :
  let selected := filter (active_of chat_id) (vocab s) in
  selected !! i = Some r ->
  (forall j r', selected !! j = Some r' -> sorts_before r r') ->
  pick_vocab is_pg (fun j => if decide (j = i) then 0 else 1) chat_id s = Some r.
Proof.
  intros selected Hi Hmin. unfold pick_vocab. fold selected.
  set (rnd := fun j : nat => if decide (j = i) then 0 else 1).
  destruct (head _) as [[r0 x]|] eqn:Hh.
  - apply head_merge_sort in Hh as [Hin Hle]; [|apply _..].
    apply elem_of_lookup_imap in Hin as (j & r1 & E & Hj). simplify_eq.
    destruct (decide (j = i)) as [->|Hne]; [simpl; congruence|].
    exfalso.
    specialize (Hle (r, rnd i)
      (elem_of_lookup_imap_2 (fun i r => (r, rnd i)) _ _ _ Hi)).
    unfold asc in Hle. rewrite pick_order_pg in Hle.
    apply Hle, (cmp_gt_lt (pick_order true)).
    apply sorts_before_lt; [by eapply Hmin|].
    unfold rnd. rewrite decide_True by done. lia.
  - apply head_merge_sort_None in Hh.
    apply (f_equal length) in Hh. rewrite length_imap in Hh.
    apply lookup_lt_Some in Hi. simpl in Hh. lia.
Qed.

(** Two never-practised words: the draw can pick the second one. *)
Lemma pick_vocab_any_tie_witness :
  let s := run [Op_add_vocab 1 (Some "tea"); Op_add_vocab 1 (Some "milk")]
             empty_db in
  pick_vocab true (fun j => if decide (j = 1%nat) then 0 else 1) 1 s
  = Some (mk_vocab 2 1 "milk" None 0 1).
Proof.
  intros s.
  apply (pick_vocab_any_tie true 1 s 1 (mk_vocab 2 1 "milk" None 0 1)).
  - vm_compute. reflexivity.
  - intros j r' H. vm_compute in H.
    destruct j as [|[|j]]; simplify_eq; by vm_compute.
Defined.

Lemma list_merge_ext {A} (R1 R2 : relation A)
  `{!forall x y, Decision (R1 x y), !forall x y, Decision (R2 x y)} :
  (forall x y, R1 x y <-> R2 x y) ->
  forall l1 l2, list_merge R1 l1 l2 = list_merge R2 l1 l2.
Proof.
  intros HR. induction l1 as [|x1 l1 IH1]; intros l2; [by destruct l2|].
  induction l2 as [|x2 l2 IH2]; [done|]. simpl.
  destruct (decide (R1 x1 x2)) as [H1|H1], (decide (R2 x1 x2)) as [H2|H2];
    try (by apply HR in H1); try (by apply HR in H2).
  - f_equal. apply IH1.
  - f_equal. apply IH2.
Qed.

Lemma merge_sort_ext {A} (R1 R2 : relation A)
  `{!forall x y, Decision (R1 x y), !forall x y, Decision (R2 x y)} :
  (forall x y, R1 x y <-> R2 x y) ->
  forall l, merge_sort R1 l = merge_sort R2 l.
Proof.
  intros HR.
  assert (forall st l, merge_list_to_stack R1 st l = merge_list_to_stack R2 st l)
    as Hpush.
  { induction st as [|[l'|] st IH]; intros l; simpl; [done| |done].
    by rewrite IH, (list_merge_ext R1 R2 HR). }
  assert (forall st, merge_stack R1 st = merge_stack R2 st) as Hpop.
  { induction st as [|[l'|] st IH]; simpl; [done| |done].
    by rewrite IH, (list_merge_ext R1 R2 HR). }
  assert (forall l st, merge_sort_aux R1 st l = merge_sort_aux R2 st l) as Haux.
  { induction l as [|x l IH]; intros st; simpl; [done|]. by rewrite Hpush, IH. }
  intros l. apply Haux.
Qed.

(** X2. The two backends agree: for the same values of [random()], the
    query of [pick_vocab] on SQLite, with its [COALESCE(last_seen,'0000')]
    compared as text, returns the row its PostgreSQL form returns with
    [NULLS FIRST]. *)
Theorem pick_vocab_backends_agree (rnd : nat -> Z) (chat_id : Z) (s : db) :
  pick_vocab false rnd chat_id s = pick_vocab true rnd chat_id s.
Proof.
  unfold pick_vocab. f_equal. f_equal. apply merge_sort_ext.
  intros x y. unfold asc. by rewrite (pick_order_pg false).
Qed.
End Ties.

Section Users.

(** X3. [get_user] makes sure the chat has a row and returns it: the row
    found, or the column defaults (Europe/Kyiv, 10, 21, 3) for a new chat;
    a second call returns the same row and writes nothing; no other chat
    and no other table is touched. *)
Theorem get_user_ensures (chat_id : Z) (s : db) :
  let u := (get_user chat_id s).1 in
  let s' := (get_user chat_id s).2 in
  users s' !! chat_id = Some u /\
  get_user chat_id s' = (u, s') /\
  (if users s !! chat_id is Some u0 then u = u0 /\ s' = s
   else u = default_user) /\
  (forall c, c <> chat_id -> users s' !! c = users s !! c) /\
  vocab s' = vocab s /\ answers s' = answers s.
Proof.
  intros u s'. subst u s'. unfold get_user.
  destruct (users s !! chat_id) as [u0|] eqn:E; simpl.
  - rewrite E. by split_and!.
  - rewrite lookup_insert_eq. split_and!; try done.
    intros c Hc. by apply lookup_insert_ne.
Qed.

Lemma StronglySorted_take {A} (R : relation A) (n : nat) (l : list A) :
  StronglySorted R l -> StronglySorted R (take n l).
Proof.
  intros H. rewrite <- (take_drop n l) in H.
  by apply StronglySorted_app_1_l in H.
Qed.

(** X4. [list_vocab] returns at most [limit] rows, all of them active rows
    of the chat, by ascending id; and every active row of the chat when
    they are no more than [limit]. *)
Theorem list_vocab_ordered (chat_id : Z) (limit : nat) (s : db) :
  let l := list_vocab chat_id limit s in
  (length l <= limit)%nat /\
  StronglySorted (fun r r' => v_id r <= v_id r') l /\
  (forall r, r ∈ l -> r ∈ vocab s /\ active_of chat_id r) /\
  ((length (filter (active_of chat_id) (vocab s)) <= limit)%nat ->
   forall r, r ∈ vocab s -> active_of chat_id r -> r ∈ l).
Proof.
  intros l. subst l. split_and!.
  - unfold list_vocab. rewrite length_take. lia.
  - unfold list_vocab. apply StronglySorted_take.
    apply (StronglySorted_merge_sort (Ord.asc (Ord.cmp_on v_id Z.compare))).
  - intros r. apply list_vocab_elem.
  - intros Hlen r Hr Ha. unfold list_vocab.
    rewrite take_ge by (by rewrite merge_sort_Permutation).
    rewrite merge_sort_Permutation. by apply list_elem_of_filter.
Qed.
End Users.

(* ================================================================== *)
(** * Settings rows                                                    *)
(* ================================================================== *)

Section SetUser.

Lemma set_user_unknown (chat_id : Z) (fields : list field) (s : db) :
  users s !! chat_id = None -> set_user chat_id fields s = s.
Proof.
  intros H. unfold set_user. destruct fields as [|f fs]; [done|].
  unfold with_users. rewrite alter_id' by done. by destruct s.
Qed.

(** X5. [set_user] stores what the driver and the columns take, and
    nothing otherwise: with a number that SQLite's driver does not bind (64
    bits) or that the column of PostgreSQL does not hold (32 bits), the
    call raises and the database is as it was.  When it returns, it has
    created no row: for a chat without a row nothing has changed, whatever
    the fields.  For a chat with a row, the four fields [settings_cmd]
    passes are what [get_user] returns next, without writing; an update of
    [tz] alone keeps the other three columns; rows of other chats and the
    other tables are never touched. *)
Theorem set_user_known_chat (is_pg : bool) (chat_id : Z) (fields : list field)
  (s : db) :
  let taken := forallb (Driver.field_ok is_pg) fields
               && Driver.binds is_pg chat_id in
  (fields <> [] -> taken = false ->
   Driver.set_user is_pg chat_id fields s = Raised (Driver.db_error is_pg)) /\
  (fields = [] \/ taken = true ->
   exists s',
     Driver.set_user is_pg chat_id fields s = Returned s' /\
     (users s !! chat_id = None -> s' = s) /\
     (forall u count start_h end_h tz_name,
        users s !! chat_id = Some u ->
        fields = [F_daily_count count; F_start_hour start_h;
                  F_end_hour end_h; F_tz tz_name] ->
        get_user chat_id s'
          = ({| tz := tz_name; start_hour := start_h; end_hour := end_h;
                daily_count := count |}, s')) /\
     (forall u tz_name,
        users s !! chat_id = Some u -> fields = [F_tz tz_name] ->
        users s' !! chat_id
          = Some {| tz := tz_name; start_hour := start_hour u;
                    end_hour := end_hour u; daily_count := daily_count u |}) /\
     (forall c, c <> chat_id -> users s' !! c = users s !! c) /\
     vocab s' = vocab s /\ answers s' = answers s).
Proof.
  intros taken. split.
  - intros Hne Hno. unfold Driver.set_user. fold taken. rewrite Hno.
    by destruct fields.
  - intros Hok. exists (set_user chat_id fields s).
    split_and!.
    + unfold Driver.set_user. fold taken.
      destruct Hok as [E|E]; [by rewrite E|rewrite E; by destruct fields].
    + apply set_user_unknown.
    + intros u count start_h end_h tz_name Hu ->.
      apply get_user_known. simpl. by rewrite lookup_alter_eq, Hu.
    + intros u tz_name Hu ->. simpl. by rewrite lookup_alter_eq, Hu.
    + intros c Hc. unfold set_user. destruct fields; [done|]. simpl.
      by apply lookup_alter_ne.
    + unfold set_user. by destruct fields.
    + unfold set_user. by destruct fields.
Qed.

(** On SQLite, a count of twenty digits is refused. *)
Lemma set_user_known_chat_witness :
  Driver.set_user false 1
    [F_daily_count 99999999999999999999; F_start_hour 8; F_end_hour 20;
     F_tz "Europe/Paris"] (w_db (Scenario.chat1 10 21 3))
  = Raised OverflowError.
Proof.
  apply (set_user_known_chat false 1
           [F_daily_count 99999999999999999999; F_start_hour 8; F_end_hour 20;
            F_tz "Europe/Paris"] (w_db (Scenario.chat1 10 21 3)));
    [discriminate|reflexivity].
Defined.

(** A count of five, a window 8-20 and the zone of Paris are stored for
    chat 1, on either backend. *)
Example set_user_stored (is_pg : bool) :
  exists s',
    Driver.set_user is_pg 1
      [F_daily_count 5; F_start_hour 8; F_end_hour 20; F_tz "Europe/Paris"]
      (w_db (Scenario.chat1 10 21 3)) = Returned s' /\
    get_user 1 s'
    = ({| tz := "Europe/Paris"; start_hour := 8; end_hour := 20;
          daily_count := 5 |}, s').
Proof. destruct is_pg; eexists; split; reflexivity. Qed.
End SetUser.

(* ================================================================== *)
(** * What the writes keep                                             *)
(* ================================================================== *)

Section Invariants.

(** One write keeps every row of [vocab] in its place with its id, owner
    and text; [active] stays or drops to 0. *)
Lemma exec_vocab_row (o : op) (s : db) (i : nat) (r : vocab_row) :
  vocab s !! i = Some r ->
  exists r', vocab (exec s o) !! i = Some r' /\
    v_id r' = v_id r /\ v_chat_id r' = v_chat_id r /\ v_text r' = v_text r /\
    (active r' = active r \/ active r' = 0).
Proof.
  intros Hi. destruct o as [c|c fs|c t|c v|c v t now]; simpl.
  - exists r. unfold get_user. destruct (users s !! c); simpl; split_and!; auto.
  - exists r. unfold set_user. destruct fs; simpl; split_and!; auto.
  - exists r. unfold add_vocab. case_decide; simpl; split_and!; auto.
    by apply lookup_app_l_Some.
  - unfold remove_vocab, with_vocab. simpl. rewrite list_lookup_fmap, Hi. simpl.
    eexists. split; [done|]. case_decide; simpl; split_and!; auto.
  - unfold record_answer, touch_vocab, with_vocab. simpl.
    rewrite list_lookup_fmap, Hi. simpl.
    eexists. split; [done|]. case_decide; simpl; split_and!; auto.
Qed.

Lemma exec_answers (o : op) (s : db) : answers s `prefix_of` answers (exec s o).
Proof.
  destruct o as [c|c fs|c t|c v|c v t now]; simpl.
  - unfold get_user. by destruct (users s !! c).
  - unfold set_user. by destruct fs.
  - unfold add_vocab. by case_decide.
  - done.
  - by eexists.
Qed.

Lemma exec_users (o : op) (s : db) (c : Z) :
  is_Some (users s !! c) -> is_Some (users (exec s o) !! c).
Proof.
  intros H. destruct o as [c'|c' fs|c' t|c' v|c' v t now]; simpl; try done.
  - unfold get_user. destruct (users s !! c') eqn:E; simpl; [done|].
    apply lookup_insert_is_Some'. by right.
  - unfold set_user. destruct fs; [done|]. simpl.
    by apply lookup_alter_is_Some.
  - unfold add_vocab. by case_decide.
Qed.

(** X6. No write of the DB layer deletes anything: along every trace the
    answers already logged stay, unchanged and in place, at the head of
    [answers]; every row of [vocab] stays in its place with the id, the
    owner and the text it had, and once it is inactive it stays inactive;
    a chat that has a settings row keeps one. *)
Theorem nothing_deleted (ops : list op) (s : db) :
  answers s `prefix_of` answers (run ops s) /\
  (forall i r, vocab s !! i = Some r ->
     exists r', vocab (run ops s) !! i = Some r' /\
       v_id r' = v_id r /\ v_chat_id r' = v_chat_id r /\
       v_text r' = v_text r /\ (active r <> 1 -> active r' <> 1)) /\
  (forall c, is_Some (users s !! c) -> is_Some (users (run ops s) !! c)).
Proof.
  revert s. induction ops as [|o ops IH]; intros s.
  - simpl. split_and!; [done| |done]. intros i r Hi. by exists r.
  - change (run (o :: ops) s) with (run ops (exec s o)).
    destruct (IH (exec s o)) as (Ha & Hv & Hu). split_and!.
    + etrans; [apply exec_answers|done].
    + intros i r Hi.
      destruct (exec_vocab_row o s i r Hi) as (r1 & H1 & E1 & E2 & E3 & E4).
      destruct (Hv i r1 H1) as (r' & H' & F1 & F2 & F3 & F4).
      exists r'. split_and!; [done|congruence..|].
      intros Hr. apply F4. destruct E4 as [->| ->]; [done|lia].
    + intros c Hc. by apply Hu, exec_users.
Qed.

(** The ids of both tables stay issued in order. *)
Lemma ids_issued_snoc (ids : list Z) (n : Z) :
  Plan.ids_issued ids n -> Plan.ids_issued (ids ++ [n + 1]) (n + 1).
Proof.
  intros (Hn & Hs & Hb). split_and!; [lia| |].
  - apply StronglySorted_app_2; [|done|repeat constructor].
    intros x y Hx Hy. apply list_elem_of_singleton in Hy as ->.
    rewrite Forall_forall in Hb. specialize (Hb x Hx). lia.
  - apply Forall_app. split; [|repeat constructor; lia].
    eapply Forall_impl; [done|]. simpl. lia.
Qed.

Lemma exec_ids (o : op) (s : db) :
  Plan.ids_issued (v_id <$> vocab s) (vocab_seq s) ->
  Plan.ids_issued (a_id <$> answers s) (answers_seq s) ->
  Plan.ids_issued (v_id <$> vocab (exec s o)) (vocab_seq (exec s o)) /\
  Plan.ids_issued (a_id <$> answers (exec s o)) (answers_seq (exec s o)).
Proof.
  intros Hv Ha.
  destruct o as [c|c fs|c t|c v|c v t now]; simpl.
  - unfold get_user. by destruct (users s !! c).
  - unfold set_user. by destruct fs.
  - unfold add_vocab. case_decide; [done|]. simpl. split; [|done].
    rewrite fmap_app. by apply ids_issued_snoc.
  - split; [|done]. rewrite <- list_fmap_compose.
    erewrite list_fmap_ext; [done|]. intros i r _. simpl. by case_decide.
  - split.
    + rewrite <- list_fmap_compose.
      erewrite list_fmap_ext; [done|]. intros i r _. simpl. by case_decide.
    + rewrite fmap_app. by apply ids_issued_snoc.
Qed.

Lemma run_ids (ops : list op) : forall s : db,
  Plan.ids_issued (v_id <$> vocab s) (vocab_seq s) ->
  Plan.ids_issued (a_id <$> answers s) (answers_seq s) ->
  Plan.ids_issued (v_id <$> vocab (run ops s)) (vocab_seq (run ops s)) /\
  Plan.ids_issued (a_id <$> answers (run ops s)) (answers_seq (run ops s)).
Proof.
  induction ops as [|o ops IH]; intros s Hv Ha; [done|].
  change (run (o :: ops) s) with (run ops (exec s o)).
  destruct (exec_ids o s Hv Ha). by apply IH.
Qed.

Lemma empty_ids : Plan.ids_issued [] 0.
Proof. split_and!; [done|constructor|constructor]. Qed.

(** X7. In every state reached from the empty database the ids of [vocab]
    and of [answers] are distinct, lie between 1 and the value of the
    table's sequence, and increase in table order: an id is issued once
    and never again, also after its row was removed. *)
Theorem ids_never_reused (ops : list op) :
  let s := run ops empty_db in
  NoDup (v_id <$> vocab s) /\ NoDup (a_id <$> answers s) /\
  StronglySorted Z.lt (v_id <$> vocab s) /\
  StronglySorted Z.lt (a_id <$> answers s) /\
  (forall r, r ∈ vocab s -> 1 <= v_id r <= vocab_seq s) /\
  (forall a, a ∈ answers s -> 1 <= a_id a <= answers_seq s) /\
  (forall text, Py.strip (default EmptyString text) <> EmptyString ->
     forall c r, r ∈ vocab s ->
       v_id r < vocab_seq (add_vocab c text s) /\
       last (v_id <$> vocab (add_vocab c text s))
         = Some (vocab_seq (add_vocab c text s))).
Proof.
  intros s.
  destruct (run_ids ops empty_db empty_ids empty_ids)
    as [(Hv0 & Hvs & Hvb) (Ha0 & Has & Hab)]. fold s in Hv0, Hvs, Hvb, Ha0, Has, Hab.
  assert (forall l : list Z, StronglySorted Z.lt l -> NoDup l) as Hnd.
  { induction 1 as [|x l Hs IH Hall]; constructor; [|done].
    intros Hx. rewrite Forall_forall in Hall. specialize (Hall x Hx). lia. }
  rewrite Forall_forall in Hvb, Hab.
  split_and!; auto.
  - intros r Hr. apply Hvb, list_elem_of_fmap. by exists r.
  - intros a Hin. apply Hab, list_elem_of_fmap. by exists a.
  - intros text Ht c r Hr. unfold add_vocab.
    rewrite decide_False by done. simpl. split.
    + assert (v_id r <= vocab_seq s); [|lia].
      apply Hvb, list_elem_of_fmap. by exists r.
    + by rewrite fmap_app, fmap_cons, fmap_nil, last_snoc.
Qed.

Lemma ids_never_reused_witness :
  let s := run [Op_add_vocab 1 (Some "tea"); Op_remove_vocab 1 1] empty_db in
  v_id (mk_vocab 1 1 "tea" None 0 0) < vocab_seq (add_vocab 2 (Some "milk") s) /\
  last (v_id <$> vocab (add_vocab 2 (Some "milk") s))
    = Some (vocab_seq (add_vocab 2 (Some "milk") s)).
Proof.
  intros s.
  apply (ids_never_reused [Op_add_vocab 1 (Some "tea"); Op_remove_vocab 1 1]).
  - by vm_compute.
  - vm_compute. left.
Defined.
End Invariants.

(* ================================================================== *)
(** * Removing, listing and picking                                    *)
(* ================================================================== *)

Section RemoveListPick.
Import Ord Plan.

(** What [pick_vocab] returns is an active row of the chat that stands
    first among them. *)
Lemma pick_vocab_head is_pg rnd c (s : db) (r : vocab_row) :
  pick_vocab is_pg rnd c s = Some r ->
  r ∈ vocab s /\ active_of c r /\
  forall r', r' ∈ vocab s -> active_of c r' -> sorts_before r r'.
Proof.
  unfold pick_vocab. intros Hp.
  apply fmap_Some in Hp as ([r0 x] & Hh & ->). simpl.
  apply head_merge_sort in Hh as [Hin Hmin]; [|apply _..].
  apply elem_of_lookup_imap in Hin as (i & r1 & E & Hi). simplify_eq.
  apply list_elem_of_lookup_2, list_elem_of_filter in Hi as [Ha Hr].
  split_and!; [done..|]. intros r' Hr' Ha'.
  assert (r' ∈ filter (active_of c) (vocab s)) as Hs
    by (by apply list_elem_of_filter).
  apply list_elem_of_lookup in Hs as [j Hj].
  apply (elem_of_lookup_imap_2 (fun i r => (r, rnd i))) in Hj.
  specialize (Hmin _ Hj). unfold asc in Hmin. rewrite pick_order_pg in Hmin.
  by apply pick_order_true_not_gt in Hmin as [? _].
Qed.

Lemma pick_vocab_None is_pg rnd c (s : db) :
  pick_vocab is_pg rnd c s = None <-> filter (active_of c) (vocab s) = [].
Proof.
  unfold pick_vocab. rewrite fmap_None, head_merge_sort_None. split.
  - intros H. apply (f_equal length) in H. rewrite length_imap in H.
    by apply nil_length_inv.
  - by intros ->.
Qed.

Lemma exec_gone (c vid : Z) (o : op) (s : db) :
  vid <= vocab_seq s -> gone c vid s ->
  vid <= vocab_seq (exec s o) /\ gone c vid (exec s o).
Proof.
  intros Hseq Hg. destruct o as [c'|c' fs|c' t|c' v|c' v t now]; simpl.
  - unfold get_user. by destruct (users s !! c').
  - unfold set_user. by destruct fs.
  - unfold add_vocab. case_decide; [done|]. simpl. split; [lia|].
    intros r Hr Hc Hi. simpl in Hr. apply elem_of_app in Hr as [Hr|Hr]; [by apply Hg|].
    apply list_elem_of_singleton in Hr. subst r. simpl in Hi. lia.
  - split; [done|]. intros r Hr Hc Hi. simpl in Hr.
    apply list_elem_of_fmap in Hr as (r0 & -> & Hr0).
    case_decide; [done|]. by apply Hg.
  - split; [done|]. intros r Hr Hc Hi. simpl in Hr.
    apply list_elem_of_fmap in Hr as (r0 & -> & Hr0).
    case_decide; simpl in *; by apply Hg.
Qed.

Lemma run_gone (c vid : Z) (ops : list op) : forall s : db,
  vid <= vocab_seq s -> gone c vid s -> gone c vid (run ops s).
Proof.
  induction ops as [|o ops IH]; intros s Hseq Hg; [done|].
  change (run (o :: ops) s) with (run ops (exec s o)).
  destruct (exec_gone c vid o s Hseq Hg). by apply IH.
Qed.

(** X8. A removed item stays removed: once [remove_vocab] has run for an id
    the sequence of [vocab] has already issued, no later trace of writes
    brings a row of that chat with that id back into [list_vocab] or
    [pick_vocab]. *)
Theorem removed_stays_removed (chat_id vid : Z) (s : db) (post : list op) :
  vid <= vocab_seq s ->
  let s' := run post (remove_vocab chat_id vid s) in
  (forall limit r, r ∈ list_vocab chat_id limit s' -> v_id r <> vid) /\
  (forall is_pg rnd r, pick_vocab is_pg rnd chat_id s' = Some r -> v_id r <> vid).
Proof.
  intros Hseq s'.
  assert (gone chat_id vid s') as Hg.
  { apply run_gone; [done|]. intros r Hr Hc Hi. simpl in Hr.
    apply list_elem_of_fmap in Hr as (r0 & -> & _).
    case_decide as Hd; [done|]. simpl in *. tauto. }
  split.
  - intros limit r Hr Hi. apply list_vocab_elem in Hr as [Hr [Hc Ha]].
    specialize (Hg r Hr Hc Hi). lia.
  - intros is_pg rnd r Hp Hi. apply pick_vocab_head in Hp as (Hr & [Hc Ha] & _).
    specialize (Hg r Hr Hc Hi). lia.
Qed.

Lemma removed_stays_removed_witness :
  let s := run [Op_add_vocab 1 (Some "tea"); Op_add_vocab 1 (Some "milk")]
             empty_db in
  let s' := run [Op_record_answer 1 1 "tea!" Scenario.noon;
                 Op_add_vocab 1 (Some "bread")] (remove_vocab 1 1 s) in
  (forall limit r, r ∈ list_vocab 1 limit s' -> v_id r <> 1) /\
  (forall is_pg rnd r, pick_vocab is_pg rnd 1 s' = Some r -> v_id r <> 1).
Proof.
  intros s.
  apply (removed_stays_removed 1 1 s
           [Op_record_answer 1 1 "tea!" Scenario.noon;
            Op_add_vocab 1 (Some "bread")]).
  by vm_compute.
Defined.

(** X9. Adding and then removing what was added is a round trip for what a
    chat sees: in every state reached from the empty database, after
    [add_vocab] of any text and [remove_vocab] of the id the sequence
    issues next, the active rows of every chat are the ones there were
    before, so [list_vocab] and [pick_vocab] answer as before. *)
Theorem add_remove_round_trip (ops : list op) (chat_id : Z)
  (text : option string) :
  let s := run ops empty_db in
  let s' := remove_vocab chat_id (vocab_seq s + 1)
              (add_vocab chat_id text s) in
  forall c,
    filter (active_of c) (vocab s') = filter (active_of c) (vocab s) /\
    (forall limit, list_vocab c limit s' = list_vocab c limit s) /\
    (forall is_pg rnd, pick_vocab is_pg rnd c s' = pick_vocab is_pg rnd c s).
Proof.
  intros s s' c.
  assert (filter (active_of c) (vocab s') = filter (active_of c) (vocab s))
    as Hf.
  { destruct (run_ids ops empty_db empty_ids empty_ids) as [(_ & _ & Hb) _].
    fold s in Hb. rewrite Forall_fmap in Hb.
    assert (forall l : list vocab_row,
              Forall (fun r => v_id r <= vocab_seq s) l ->
              (fun r => if decide (v_chat_id r = chat_id /\ v_id r = vocab_seq s + 1)
                        then deactivate r else r) <$> l = l) as Hid.
    { induction 1 as [|r l Hr Hl IH]; [done|]. rewrite fmap_cons, IH.
      rewrite decide_False by lia. done. }
    assert (Forall (fun r => v_id r <= vocab_seq s) (vocab s)) as Hb'.
    { eapply Forall_impl; [done|]. simpl. lia. }
    subst s'. unfold add_vocab. case_decide.
    - simpl. by rewrite (Hid _ Hb').
    - simpl. rewrite fmap_app, (Hid _ Hb'), filter_app. simpl.
      rewrite decide_True by done.
      rewrite filter_cons, filter_nil. unfold deactivate at 1.
      rewrite decide_False; [by rewrite app_nil_r|].
      unfold active_of. simpl. lia. }
  split_and!; [done| |].
  - intros limit. unfold list_vocab. by rewrite Hf.
  - intros is_pg rnd. unfold pick_vocab. by rewrite Hf.
Qed.

(** X10. [pick_vocab] and [list_vocab] agree on what a chat has: the pick is
    empty exactly when the list (with a positive limit) is, and when the
    chat has no more active rows than the limit the row picked is one of
    the rows listed. *)
Theorem pick_list_consistent (is_pg : bool) (rnd : nat -> Z) (chat_id : Z)
  (limit : nat) (s : db) :
  (pick_vocab is_pg rnd chat_id s = None <->
     list_vocab chat_id (S limit) s = []) /\
  ((length (filter (active_of chat_id) (vocab s)) <= limit)%nat ->
   forall r, pick_vocab is_pg rnd chat_id s = Some r ->
             r ∈ list_vocab chat_id limit s).
Proof.
  split.
  - rewrite pick_vocab_None. unfold list_vocab.
    pose proof (merge_sort_Permutation (asc (cmp_on v_id Z.compare))
                  (filter (active_of chat_id) (vocab s))) as Hp.
    split.
    + intros E. rewrite E in Hp |- *. done.
    + intros E. destruct (merge_sort _ _) as [|x l] eqn:Em; [|done].
      by apply Permutation_nil in Hp.
  - intros Hlen r Hp. apply pick_vocab_head in Hp as (Hr & Ha & _).
    unfold list_vocab.
    rewrite take_ge by (by rewrite merge_sort_Permutation).
    rewrite merge_sort_Permutation. by apply list_elem_of_filter.
Qed.
End RemoveListPick.

(* ================================================================== *)
(** * Replies                                                          *)
(* ================================================================== *)

Section Replies.
Import Handlers.

Lemma no_active_filter (c : Z) (s : db) :
  (forall r, r ∈ vocab s -> ~ active_of c r) ->
  filter (active_of c) (vocab s) = [].
Proof.
  intros Hn. destruct (filter _ _) as [|x l] eqn:E; [done|].
  assert (x ∈ filter (active_of c) (vocab s)) as Hx by (rewrite E; left).
  apply list_elem_of_filter in Hx as [Ha Hx]. by destruct (Hn x).
Qed.

(** X11. [reply_handler] credits a reply to an item of the chat that wrote
    it: when the chat has an active item, exactly one answer is logged,
    under the chat's id and the id of an active item of that chat that
    stands first under the order of [pick_vocab], that item is reinforced,
    and the confirmation is sent; when the chat has no active item, or the
    message is not a reply, nothing is written and nothing is sent. *)
Theorem reply_handler_credits (is_pg : bool) (rnd : nat -> Z)
  (now : Py.datetime) (chat_id : Z) (text : string) (s : db) :
  reply_handler is_pg rnd now chat_id false text s = ([], s) /\
  ((forall r, r ∈ vocab s -> ~ active_of chat_id r) ->
   reply_handler is_pg rnd now chat_id true text s = ([], s)) /\
  (forall r0, r0 ∈ vocab s -> active_of chat_id r0 ->
   exists v,
     v ∈ vocab s /\ active_of chat_id v /\
     (forall r', r' ∈ vocab s -> active_of chat_id r' -> sorts_before v r') /\
     reply_handler is_pg rnd now chat_id true text s
       = ([Recorded], record_answer chat_id (v_id v) text now s) /\
     answers (record_answer chat_id (v_id v) text now s)
       = answers s ++ [mk_answer (answers_seq s + 1) chat_id (v_id v) text now] /\
     reinforce now v ∈ vocab (record_answer chat_id (v_id v) text now s)).
Proof.
  split_and!.
  - done.
  - intros Hn. unfold reply_handler.
    assert (pick_vocab is_pg rnd chat_id s = None) as ->; [|done].
    by apply pick_vocab_None, no_active_filter.
  - intros r0 Hr0 Ha0. unfold reply_handler.
    destruct (pick_vocab is_pg rnd chat_id s) as [v|] eqn:Hp.
    + destruct (pick_vocab_head _ _ _ _ _ Hp) as (Hv & Hav & Hmin).
      exists v. split_and!; try done.
      simpl. apply list_elem_of_fmap. exists v.
      by rewrite decide_True.
    + apply pick_vocab_None in Hp.
      assert (r0 ∈ filter (active_of chat_id) (vocab s)) as Hin
        by (by apply list_elem_of_filter).
      rewrite Hp in Hin. by apply elem_of_nil in Hin.
Qed.

(** Chat 1 holds "milk", chat 2 holds "tea": a reply of chat 1 is credited
    to "milk". *)
Lemma reply_handler_credits_witness :
  let s := run [Op_add_vocab 2 (Some "tea"); Op_add_vocab 1 (Some "milk")]
             empty_db in
  exists v,
    v ∈ vocab s /\ active_of 1 v /\
    (forall r', r' ∈ vocab s -> active_of 1 r' -> sorts_before v r') /\
    reply_handler false (fun _ => 0) Scenario.noon 1 true "hello" s
      = ([Recorded], record_answer 1 (v_id v) "hello" Scenario.noon s) /\
    answers (record_answer 1 (v_id v) "hello" Scenario.noon s)
      = answers s ++ [mk_answer (answers_seq s + 1) 1 (v_id v) "hello"
                        Scenario.noon] /\
    reinforce Scenario.noon v
      ∈ vocab (record_answer 1 (v_id v) "hello" Scenario.noon s).
Proof.
  intros s.
  apply (proj2 (proj2 (reply_handler_credits false (fun _ => 0) Scenario.noon
                         1 "hello" s))
           (mk_vocab 2 1 "milk" None 0 1)).
  - right. left.
  - by vm_compute.
Defined.

(** X12. No item is picked twice in a row while another one is waiting:
    right after an answer was recorded at [now] for an id, [pick_vocab]
    returns no row with that id for a chat that has another active item
    never seen, or last seen before [now]. *)
Theorem no_immediate_repeat (is_pg : bool) (rnd : nat -> Z)
  (chat_id writer vid : Z) (text : string) (now : Py.datetime) (s : db)
  (other p : vocab_row) :
  other ∈ vocab s -> active_of chat_id other -> v_id other <> vid ->
  (forall d, last_seen other = Some d -> Py.dt_compare d now = Lt) ->
  pick_vocab is_pg rnd chat_id (record_answer writer vid text now s) = Some p ->
  v_id p <> vid.
Proof.
  intros Ho Hao Hne Hseen Hp Hid.
  apply pick_vocab_head in Hp as (Hp & _ & Hmin).
  simpl in Hp. apply list_elem_of_fmap in Hp as (p0 & -> & Hp0).
  assert (v_id p0 = vid) as Hid0 by (by case_decide).
  rewrite decide_True in Hmin, Hid by done.
  specialize (Hmin other). unfold sorts_before in Hmin. simpl in Hmin.
  assert (other ∈ (fun r => if decide (v_id r = vid) then reinforce now r else r)
                     <$> vocab s) as Hin.
  { apply list_elem_of_fmap. exists other. by rewrite decide_False. }
  specialize (Hmin Hin Hao).
  destruct (last_seen other) as [d|]; [|done].
  specialize (Hseen d eq_refl).
  rewrite (Ord.cmp_antisym (cmp := Py.dt_compare) d now), Hseen in Hmin.
  simpl in Hmin. by destruct Hmin as [?|[? _]].
Qed.

Lemma no_immediate_repeat_witness :
  let s := run [Op_add_vocab 1 (Some "tea"); Op_add_vocab 1 (Some "milk");
                Op_record_answer 1 2 "milk!" Scenario.noon] empty_db in
  v_id (mk_vocab 2 1 "milk" (Some Scenario.noon) 1 1) <> 1.
Proof.
  intros s.
  apply (no_immediate_repeat true (fun _ => 0) 1 1 1 "tea again"
           Scenario.evening s
           (mk_vocab 2 1 "milk" (Some Scenario.noon) 1 1)
           (mk_vocab 2 1 "milk" (Some Scenario.noon) 1 1)).
  - vm_compute. right. left.
  - by vm_compute.
  - by vm_compute.
  - intros d [= <-]. by vm_compute.
  - by vm_compute.
Defined.
End Replies.

(* ================================================================== *)
(** * The add and remove commands                                      *)
(* ================================================================== *)

Section Commands.
Import Handlers.

Lemma lstrip_chars_clean (l : list ascii) :
  (forall c, head l = Some c -> Py.isspace c = false) -> Py.lstrip_chars l = l.
Proof.
  destruct l as [|c l]; [done|]. intros H. simpl. by rewrite (H c).
Qed.

(** [strip] returns a text as it is when it neither starts nor ends with
    whitespace. *)
Lemma strip_clean (s : string) :
  (forall c, head (list_ascii_of_string s) = Some c -> Py.isspace c = false) ->
  (forall c, last (list_ascii_of_string s) = Some c -> Py.isspace c = false) ->
  Py.strip s = s.
Proof.
  intros Hh Hl. unfold Py.strip.
  rewrite (lstrip_chars_clean _ Hh).
  rewrite lstrip_chars_clean by (intros c; rewrite head_reverse; apply Hl).
  by rewrite reverse_involutive, string_of_list_ascii_of_string.
Qed.

Lemma strip_idempotent (s : string) : Py.strip (Py.strip s) = Py.strip s.
Proof.
  destruct (strip_spec s) as (p & q & _ & _ & _ & Hh & Hl).
  by apply strip_clean.
Qed.

(** X13. [add_cmd] stores nothing and answers with the usage text when its
    arguments joined by spaces are blank; otherwise it appends exactly one
    row, whose text is the very text the confirmation shows: the joined
    arguments without whitespace at either end (the second [strip], in
    [add_vocab], changes nothing). *)
Theorem add_cmd_echo (chat_id : Z) (args : list string) (s : db) :
  let txt := Py.strip (join args) in
  if decide (txt = EmptyString) then add_cmd chat_id args s = ([AddUsage], s)
  else
    exists s',
      add_cmd chat_id args s = ([Added txt], s') /\
      vocab s' = vocab s ++
        [mk_vocab (vocab_seq s + 1) chat_id txt None 0 1] /\
      users s' = users s /\ answers s' = answers s.
Proof.
  intros txt. unfold add_cmd. fold txt.
  destruct (decide (txt = EmptyString)) as [E|N]; [done|].
  exists (add_vocab chat_id (Some txt) s). split; [done|].
  unfold add_vocab. cbn [default from_option id].
  assert (Py.strip txt = txt) as -> by apply strip_idempotent.
  by rewrite decide_False.
Qed.

Lemma isdigit_char_classes (c : ascii) :
  isdigit_char c = true ->
  (Py.isdigit c = true /\ 48 <= Py.code c <= 57) \/
  (Py.isdigit c = false /\ Py.code c <> 95 /\ Py.code c <> 43 /\ Py.code c <> 45).
Proof.
  unfold isdigit_char, Py.isdigit. intros H.
  repeat match goal with
  | |- context [?a <=? ?b] => destruct (Z.leb_spec a b)
  | H : context [?a <=? ?b] |- _ => destruct (Z.leb_spec a b)
  | H : context [?a =? ?b] |- _ => destruct (Z.eqb_spec a b)
  end; simpl in *; try done; (left; split; [done|lia]) || (right; split; [done|lia]).
Qed.

Lemma forallb_elem {A} (f : A -> bool) (l : list A) :
  forallb f l = true <-> forall x, x ∈ l -> f x = true.
Proof.
  rewrite forallb_forall. by setoid_rewrite list_elem_of_In.
Qed.

Lemma str_isdigit_chars (a : string) :
  str_isdigit a = true <->
  a <> EmptyString /\
  forall c, c ∈ list_ascii_of_string a -> isdigit_char c = true.
Proof.
  unfold str_isdigit. destruct a as [|c a]; simpl.
  - split; [done|]. by intros [? _].
  - change (isdigit_char c && forallb isdigit_char (list_ascii_of_string a))
      with (forallb isdigit_char (c :: list_ascii_of_string a)).
    rewrite forallb_elem. split; [by intros H|by intros [_ H]].
Qed.

Lemma isdigit_char_not_int_space (c : ascii) :
  isdigit_char c = true -> Py.int_isspace c = false.
Proof.
  unfold isdigit_char, Py.int_isspace. intros H.
  repeat match goal with
  | |- context [?a <=? ?b] => destruct (Z.leb_spec a b)
  | |- context [?a =? ?b] => destruct (Z.eqb_spec a b)
  | H : context [?a <=? ?b] |- _ => destruct (Z.leb_spec a b)
  | H : context [?a =? ?b] |- _ => destruct (Z.eqb_spec a b)
  end; simpl in *; try done; lia.
Qed.

Lemma int_lstrip_clean (l : list ascii) :
  (forall c, head l = Some c -> Py.int_isspace c = false) ->
  Py.int_lstrip l = l.
Proof.
  destruct l as [|c l]; [done|]. intros H. simpl. by rewrite (H c).
Qed.

(** [int] skips nothing in a text that [isdigit] accepts. *)
Lemma str_isdigit_strip (a : string) :
  str_isdigit a = true ->
  Py.int_strip (list_ascii_of_string a) = list_ascii_of_string a.
Proof.
  intros [_ H]%str_isdigit_chars. unfold Py.int_strip.
  rewrite (int_lstrip_clean (list_ascii_of_string a)).
  - rewrite int_lstrip_clean; [apply reverse_involutive|].
    intros c Hc. rewrite head_reverse in Hc.
    by apply isdigit_char_not_int_space, H, last_Some_elem_of.
  - intros c Hc. apply isdigit_char_not_int_space, H.
    destruct (list_ascii_of_string a); simplify_eq/=. left.
Qed.

(** The digits of a literal are read to the end when they are all ASCII
    digits. *)
Lemma int_digits_all (l : list ascii) : forall acc prev,
  Forall (fun c => Py.isdigit c = true) l ->
  0 <= acc -> (l <> [] \/ prev = true) ->
  exists n, Py.int_digits acc prev l = Some n /\ 0 <= n.
Proof.
  induction l as [|c l IH]; intros acc prev Hall Hacc Hne; simpl.
  - destruct Hne as [?| ->]; [done|]. by exists acc.
  - apply Forall_cons in Hall as [Hc Hall]. rewrite Hc.
    apply IH; [done| |by right].
    unfold Py.isdigit in Hc. apply andb_prop in Hc as [H1 H2].
    apply Z.leb_le in H1. lia.
Qed.

(** A character that is neither an ASCII digit nor an underscore makes the
    literal invalid, wherever it stands. *)
Lemma int_digits_bad (l : list ascii) : forall acc prev c,
  c ∈ l -> Py.isdigit c = false -> Py.code c <> 95 ->
  Py.int_digits acc prev l = None.
Proof.
  induction l as [|a l IH]; intros acc prev c Hin Hd Hu; simpl.
  - by apply elem_of_nil in Hin.
  - apply elem_of_cons in Hin as [<-|Hin].
    + rewrite Hd. apply Z.eqb_neq in Hu. by rewrite Hu.
    + destruct (Py.isdigit a); [by eapply IH|].
      destruct ((Py.code a =? 95) && prev); [by eapply IH|done].
Qed.

(** X14. The guard of [remove_cmd] and its conversion disagree, and nothing
    bounds the number.  An argument made of ASCII digits is converted to a
    number that is not negative, and when the driver takes it the row is
    removed ("removed" is answered whether a row matched or not); when the
    driver does not take it (SQLite binds 64 bits), its exception goes
    uncaught, nothing is written and nothing is answered.  Without an
    argument, or with one that [isdigit] rejects, the usage text is sent and
    nothing is written; but an argument that [isdigit] accepts and that
    holds a superscript digit makes [int] raise [ValueError], which nothing
    catches. *)
Theorem remove_cmd_guard (is_pg : bool) (chat_id : Z) (a0 : string)
  (rest : list string) (s : db) :
  remove_cmd is_pg chat_id [] s = (Returned [RemoveUsage], s) /\
  (str_isdigit a0 = false ->
   remove_cmd is_pg chat_id (a0 :: rest) s = (Returned [RemoveUsage], s)) /\
  (a0 <> EmptyString ->
   Forall (fun c => Py.isdigit c = true) (list_ascii_of_string a0) ->
   exists vid, 0 <= vid /\ Py.int a0 = Some vid /\
     remove_cmd is_pg chat_id (a0 :: rest) s
       = if Driver.binds is_pg chat_id && Driver.binds is_pg vid
         then (Returned [Removed], remove_vocab chat_id vid s)
         else (Raised (Driver.db_error is_pg), s)) /\
  (str_isdigit a0 = true ->
   (exists c, c ∈ list_ascii_of_string a0 /\ Py.isdigit c = false) ->
   remove_cmd is_pg chat_id (a0 :: rest) s = (Raised ValueError, s)).
Proof.
  split_and!.
  - done.
  - intros H. unfold remove_cmd. by rewrite H.
  - intros Hne Hall. rewrite Forall_forall in Hall.
    assert (str_isdigit a0 = true) as Hd.
    { apply str_isdigit_chars. split; [done|]. intros c Hc.
      unfold isdigit_char. specialize (Hall c Hc). unfold Py.isdigit in Hall.
      by rewrite Hall. }
    unfold remove_cmd, Py.int. rewrite Hd, (str_isdigit_strip a0 Hd).
    destruct (list_ascii_of_string a0) as [|c l] eqn:E.
    { destruct a0; [done|discriminate]. }
    assert (48 <= Py.code c <= 57) as Hcode.
    { specialize (Hall c ltac:(left)). unfold Py.isdigit in Hall.
      apply andb_prop in Hall as [H1 H2]. apply Z.leb_le in H1, H2. lia. }
    rewrite (proj2 (Z.eqb_neq (Py.code c) 43)) by lia.
    rewrite (proj2 (Z.eqb_neq (Py.code c) 45)) by lia.
    destruct (int_digits_all (c :: l) 0 false) as (n & Hn & Hpos);
      [by apply Forall_forall|done|by left|].
    exists n. rewrite Hn. unfold Driver.remove_vocab.
    by destruct (Driver.binds is_pg chat_id && Driver.binds is_pg n).
  - intros Hd (c & Hc & Hbad).
    unfold remove_cmd, Py.int. rewrite Hd, (str_isdigit_strip a0 Hd).
    apply str_isdigit_chars in Hd as [_ Hd].
    destruct (list_ascii_of_string a0) as [|c0 l] eqn:E;
      [by apply elem_of_nil in Hc|].
    assert (Py.code c0 <> 43 /\ Py.code c0 <> 45) as [H43 H45].
    { destruct (isdigit_char_classes c0 (Hd c0 ltac:(left)))
        as [[_ H0]|(_ & _ & H43 & H45)]; lia. }
    rewrite (proj2 (Z.eqb_neq (Py.code c0) 43)) by done.
    rewrite (proj2 (Z.eqb_neq (Py.code c0) 45)) by done.
    destruct (isdigit_char_classes c (Hd c Hc)) as [[Hok _]|(_ & Hu & _)];
      [congruence|].
    by rewrite (int_digits_bad (c0 :: l) 0 false c Hc Hbad Hu).
Qed.

(** [/remove 1] followed by a superscript two. *)
Lemma remove_cmd_guard_witness :
  remove_cmd false 1 [String "1" (String (ascii_of_nat 178) EmptyString)]
    empty_db
  = (Raised ValueError, empty_db).
Proof.
  apply (remove_cmd_guard false 1
           (String "1" (String (ascii_of_nat 178) EmptyString)) [] empty_db).
  - reflexivity.
  - exists (ascii_of_nat 178). split; [right; left | reflexivity].
Defined.

(** [/remove] with a number of twenty digits: SQLite's driver raises, and
    the row the chat has stays; PostgreSQL's compares the ids and finds
    none. *)
Example remove_cmd_huge :
  let s := add_vocab 1 (Some "tea") empty_db in
  remove_cmd false 1 ["99999999999999999999"] s = (Raised OverflowError, s) /\
  remove_cmd true 1 ["99999999999999999999"] s = (Returned [Removed], s).
Proof. by vm_compute. Qed.
End Commands.

(* ================================================================== *)
(** * When planning ends, and how                                      *)
(* ================================================================== *)

Section Planning.
Import Plan.

Lemma start_known fuel tznow rng c w u :
  users (w_db w) !! c = Some u ->
  start fuel tznow rng c w
  = schedule_today fuel tznow rng c (reply_text c Welcome w).
Proof.
  intros Hu. unfold start. rewrite (get_user_known _ _ _ Hu).
  cbn [snd]. by rewrite set_db_same.
Qed.

(** X15. [schedule_today] raises, and registers nothing, when pytz does not
    know the stored zone ([UnknownTimeZoneError]) and when every hour it
    can draw is outside 0..23, as with a stored [start_hour] above 23
    ([ValueError], at the first draw).  [start] lets the exception
    through after it has sent its welcome. *)
Theorem schedule_today_raises (fuel : nat) (tznow : string -> option reading)
  (rng : nat -> Z) (chat_id : Z) (w : world) (u : user_row) :
  users (w_db w) !! chat_id = Some u ->
  (tznow (tz u) = None ->
   schedule_today fuel tznow rng chat_id w = (Raised UnknownTimeZoneError, w) /\
   start fuel tznow rng chat_id w
     = (Raised UnknownTimeZoneError, reply_text chat_id Welcome w)) /\
  (is_Some (tznow (tz u)) ->
   23 < start_hour u \/ Z.max (start_hour u) (end_hour u - 1) < 0 ->
   schedule_today (S fuel) tznow rng chat_id w = (Raised ValueError, w) /\
   start (S fuel) tznow rng chat_id w
     = (Raised ValueError, reply_text chat_id Welcome w)).
Proof.
  intros Hu. split.
  - intros Htz.
    assert (forall w0, users (w_db w0) !! chat_id = Some u ->
              schedule_today fuel tznow rng chat_id w0
              = (Raised UnknownTimeZoneError, w0)) as H.
    { intros w0 Hu0. unfold schedule_today.
      by rewrite (get_user_known _ _ _ Hu0), set_db_same, Htz. }
    split; [by apply H|]. rewrite (start_known _ _ _ _ _ _ Hu). by apply H.
  - intros Htz Hbad.
    split; [by apply (schedule_today_bad_hours _ _ _ _ _ u)|].
    rewrite (start_known _ _ _ _ _ _ Hu).
    by apply (schedule_today_bad_hours _ _ _ _ _ u).
Qed.

Lemma schedule_today_raises_witness :
  schedule_today 1 (Scenario.at_time 9 0) Scenario.sevens 1
    (Scenario.chat1 25 30 3)
  = (Raised ValueError, Scenario.chat1 25 30 3) /\
  start 1 (Scenario.at_time 9 0) Scenario.sevens 1 (Scenario.chat1 25 30 3)
  = (Raised ValueError, reply_text 1 Welcome (Scenario.chat1 25 30 3)).
Proof.
  apply (schedule_today_raises 0 (Scenario.at_time 9 0) Scenario.sevens 1
           (Scenario.chat1 25 30 3)
           {| tz := "Europe/Kyiv"; start_hour := 25; end_hour := 30;
              daily_count := 3 |}).
  - reflexivity.
  - by eexists.
  - left. simpl. lia.
Defined.

Lemma elem_of_day_slots (start_h end_h date t : Z) :
  t ∈ day_slots start_h end_h date <->
  exists h m, start_h <= h <= Z.max start_h (end_h - 1) /\ m ∈ MINUTES /\
    t = combine date (h * US_HOUR + m * US_MINUTE).
Proof.
  unfold day_slots. rewrite list_elem_of_bind. split.
  - intros (h & Ht & Hh). apply list_elem_of_bind in Ht as (m & Ht & Hm).
    apply list_elem_of_singleton in Ht. apply elem_of_seqZ in Hh.
    exists h, m. split_and!; [lia..|done|done].
  - intros (h & m & Hh & Hm & ->). exists h. split.
    + apply list_elem_of_bind. exists m. split; [by apply list_elem_of_singleton|done].
    + apply elem_of_seqZ. lia.
Qed.

Lemma elem_of_remaining (start_h end_h : Z) (rd : reading) (x : Z) :
  x ∈ remaining start_h end_h rd <->
  exists t, x = rd_localize rd t /\ t ∈ to_come start_h end_h rd.
Proof. unfold remaining. by rewrite elem_of_list_to_set, list_elem_of_fmap. Qed.

Lemma run_at_remaining rng start_h end_h rd i :
  later rd (run_at rng start_h end_h rd i) ->
  instant (run_at rng start_h end_h rd i) ∈ remaining start_h end_h rd.
Proof.
  intros Hlt. apply elem_of_remaining.
  exists (wall (run_at rng start_h end_h rd i)). split; [done|].
  apply list_elem_of_filter. split; [done|].
  apply elem_of_day_slots.
  exists (draw_hour rng i start_h end_h), (draw_minute rng i).
  split_and!; [apply draw_hour_range..|apply choice_minutes|done].
Qed.

Lemma walk_even start_h l j t :
  l !! j = Some t -> walk start_h l (2 * j) = hour_of t - start_h.
Proof.
  intros H. unfold walk. rewrite Nat.div2_double, H.
  by rewrite Nat.even_mul.
Qed.

Lemma walk_odd start_h l j t :
  l !! j = Some t -> walk start_h l (S (2 * j)) = (minute_of t - 5) / 10.
Proof.
  intros H. unfold walk. rewrite Nat.div2_succ_double, H.
  by rewrite Nat.even_succ, Nat.odd_mul.
Qed.

(** The generator [walk] makes the loop draw the clock readings of the
    list. *)
Lemma run_at_walk start_h end_h rd l j t :
  0 <= start_h -> Z.max start_h (end_h - 1) <= 23 ->
  l !! j = Some t ->
  t ∈ day_slots start_h end_h (date_of (wall (rd_now rd))) ->
  run_at (walk start_h l) start_h end_h rd (2 * j) = localize rd t.
Proof.
  intros H0 H23 Hj Ht.
  apply elem_of_day_slots in Ht as (h & m & Hh & Hm & ->).
  pose proof (minutes_range m Hm) as Hmr.
  unfold run_at, draw_hour, draw_minute.
  rewrite (walk_even _ _ _ _ Hj), (walk_odd _ _ _ _ Hj).
  rewrite hour_of_combine, minute_of_combine by lia.
  f_equal. f_equal. f_equal; [f_equal|f_equal].
  - unfold Py.randint. rewrite Z.mod_small by lia. lia.
  - unfold MINUTES in Hm. rewrite !elem_of_cons, elem_of_nil in Hm.
    destruct Hm as [->|[->|[->|[->|[->|[]]]]]]; reflexivity.
Qed.

Lemma future_S rng start_h end_h rd k i :
  future rng start_h end_h rd (S k) i
  = (if bool_decide (later rd (run_at rng start_h end_h rd i))
     then {[ instant (run_at rng start_h end_h rd i) ]} else ∅)
    ∪ future rng start_h end_h rd k (S (S i)).
Proof. done. Qed.

Lemma future_walk start_h end_h rd l :
  0 <= start_h -> Z.max start_h (end_h - 1) <= 23 ->
  (forall t, t ∈ l -> t ∈ to_come start_h end_h rd) ->
  forall k j0 j t, (j0 <= j < j0 + k)%nat -> l !! j = Some t ->
    rd_localize rd t ∈ future (walk start_h l) start_h end_h rd k (2 * j0).
Proof.
  intros H0 H23 Hl. induction k as [|k IH]; intros j0 j t Hj Ht; [lia|].
  rewrite future_S. apply elem_of_union.
  destruct (decide (j = j0)) as [->|Hne].
  - left.
    assert (t ∈ to_come start_h end_h rd) as Hr
      by (by eapply Hl, list_elem_of_lookup_2).
    apply list_elem_of_filter in Hr as [Hlt Hs].
    rewrite (run_at_walk _ _ _ _ _ _ H0 H23 Ht Hs).
    rewrite bool_decide_true by done. by apply elem_of_singleton.
  - right. replace (S (S (2 * j0))) with (2 * S j0)%nat by lia.
    apply (IH (S j0) j t); [lia|done].
Qed.

(** X16. Whether [schedule_today] can return is decided by the instants
    that remain: for a window within 0..23, take the day's candidate clock
    readings (an hour of the window, a minute of 5, 15, 25, 35, 45) and the
    instants the zone makes of them; when fewer than [clamp(count,1,12)]
    distinct ones are later than the planning instant, it never returns,
    whatever the generator yields; when that many are, there are random
    draws with which it returns, having registered exactly
    [clamp(count,1,12)] jobs. *)
Theorem schedule_today_slots (tznow : string -> option reading) (chat_id : Z)
  (w : world) (u : user_row) (rd : reading) :
  users (w_db w) !! chat_id = Some u ->
  tznow (tz u) = Some rd ->
  0 <= start_hour u -> Z.max (start_hour u) (end_hour u - 1) <= 23 ->
  let left := remaining (start_hour u) (end_hour u) rd in
  (Z.of_nat (size left) < target (daily_count u) ->
   forall fuel rng,
     schedule_today fuel tznow rng chat_id w = (OutOfFuel, w)) /\
  (target (daily_count u) <= Z.of_nat (size left) ->
   exists fuel rng w',
     schedule_today fuel tznow rng chat_id w = (Returned tt, w') /\
     Z.of_nat (length (w_jobs w'))
       = Z.of_nat (length (w_jobs w)) + target (daily_count u)).
Proof.
  intros Hu Htz H0 H23 left. split.
  - intros Hfew fuel rng.
    apply (schedule_today_starved left fuel tznow rng chat_id w u rd);
      try done.
    intros i. apply run_at_remaining.
  - intros Hmany.
    set (l := to_come (start_hour u) (end_hour u) rd).
    set (rng := walk (start_hour u) l).
    assert (left ⊆ future rng (start_hour u) (end_hour u) rd (length l) 0)
      as Hsub.
    { intros x Hx. apply elem_of_remaining in Hx as (t & -> & Ht).
      fold l in Ht. apply list_elem_of_lookup in Ht as [j Hj].
      apply (future_walk (start_hour u) (end_hour u) rd l H0 H23)
        with (j0 := 0%nat) (j := j); [done|split; [lia|]|done].
      apply lookup_lt_Some in Hj. lia. }
    destruct (plan_loop_terminates rng (start_hour u) (end_hour u)
                (daily_count u) rd (length l) (length l) 0%nat ∅)
      as [res Hres]; [done|done|done| |].
    { rewrite dom_empty_L, (left_id_L ∅ (∪)).
      pose proof (subseteq_size _ _ Hsub). lia. }
    exists (length l), rng. eexists. unfold schedule_today.
    rewrite (get_user_known _ _ _ Hu), set_db_same, Htz, Hres.
    split; [done|].
    apply plan_loop_returned in Hres as [_ Hsize];
      [|intros k0 w0; by rewrite lookup_empty
       |rewrite map_size_empty; pose proof (target_range (daily_count u)); lia].
    simpl. rewrite length_app, length_fmap.
    rewrite (proj1 (sorted_spec res)). lia.
Qed.

(** The day Kyiv's clocks skip from 03:00 to 04:00, window 3-5, six
    reminders, planned at 00:30: the ten clock readings that can be drawn
    denote five instants, and the plan is never completed. *)
Lemma schedule_today_slots_witness :
  schedule_today 500 (Scenario.spring_forward 0 30) Scenario.sevens 1
    (Scenario.chat1 3 5 6)
  = (OutOfFuel, Scenario.chat1 3 5 6).
Proof.
  apply (schedule_today_slots (Scenario.spring_forward 0 30) 1
           (Scenario.chat1 3 5 6)
           {| tz := "Europe/Kyiv"; start_hour := 3; end_hour := 5;
              daily_count := 6 |}
           (Scenario.kyiv (0 * US_HOUR + 30 * US_MINUTE))).
  - reflexivity.
  - reflexivity.
  - simpl. lia.
  - simpl. lia.
  - by vm_compute.
Defined.
End Planning.
